(** * esr_riders: driver selection, surge pricing and the quote handler

    A shallow embedding of the rider service of go-learn-ca
    ([FindBestDriver], [CalculateCost], [RiderRequest]) and the
    properties of it that the specification states.

    Go's [float64] is IEEE 754 binary64; it is modelled by the
    executable specification of binary floating-point numbers of the
    standard library ([SpecFloat], precision 53, maximal exponent 1024,
    rounding to nearest even), so that every arithmetic step of the
    source rounds here as it does there. *)

From Stdlib Require Import ZArith List String Ascii Bool Lia.
From Stdlib Require Import Floats.SpecFloat.
From Stdlib Require Import FMapAVL FMapFacts OrderedTypeEx.
Import ListNotations.

Local Open Scope string_scope.
Local Open Scope list_scope.
Local Open Scope Z_scope.

(** ** float64 *)

Module F64.

Definition prec : Z := 53.
Definition emax : Z := 1024.

Definition t : Type := spec_float.

(** A value of type [t] is a float64 when it is in canonical form. *)
Definition valid (x : t) : bool := valid_binary prec emax x.

(** Conversion of an integer constant ([1000.0], [2], ...). *)
Definition of_Z (z : Z) : t := binary_normalize prec emax z 0 false.

(** [m * 2^e], rounded. *)
Definition of_scaled (m e : Z) : t := binary_normalize prec emax m e false.

Definition zero : t := S754_zero false.
Definition inf : t := S754_infinity false.           (* math.Inf(1) *)

Definition add : t -> t -> t := SFadd prec emax.
Definition mul : t -> t -> t := SFmul prec emax.
Definition div : t -> t -> t := SFdiv prec emax.
Definition ltb : t -> t -> bool := SFltb.             (* x < y *)
Definition leb : t -> t -> bool := SFleb.             (* x <= y *)
Definition eqb : t -> t -> bool := SFeqb.             (* x == y *)
Definition gtb (x y : t) : bool := SFltb y x.         (* x > y *)

(** Neither NaN nor an infinity: the values a JSON number decodes to,
    and the values [json.Marshal] accepts. *)
Definition is_finite (x : t) : bool :=
  match x with
  | S754_zero _ | S754_finite _ _ _ => true
  | S754_infinity _ | S754_nan => false
  end.

Definition is_nan (x : t) : bool :=
  match x with S754_nan => true | _ => false end.

End F64.

Definition float64 : Type := F64.t.

Declare Scope f64_scope.
Delimit Scope f64_scope with f64.
Infix "+" := F64.add : f64_scope.
Infix "*" := F64.mul : f64_scope.
Infix "/" := F64.div : f64_scope.
Infix "<?" := F64.ltb : f64_scope.
Infix "<=?" := F64.leb : f64_scope.
Infix ">?" := F64.gtb : f64_scope.
Infix "=?" := F64.eqb : f64_scope.

(** The float constants of the source. *)
Definition f0 : float64 := F64.zero.
Definition f1 : float64 := Eval vm_compute in F64.of_Z 1.
Definition f2 : float64 := Eval vm_compute in F64.of_Z 2.
Definition f4 : float64 := Eval vm_compute in F64.of_Z 4.
Definition f8 : float64 := Eval vm_compute in F64.of_Z 8.
Definition f1000 : float64 := Eval vm_compute in F64.of_Z 1000.

(** ** The data of the rider service *)

(** [error] values are built by [errors.New] from a message. *)
Definition error : Type := string.

(** [type Driver struct { Name string; Rate float64 }] *)
Record Driver : Type := mkDriver { Name : string; Rate : float64 }.

(** [type Journey struct { Start string; End string }] *)
Record Journey : Type := mkJourney { Start : string; End_ : string }.

(** [type Directions struct], the part of the Google Directions reply
    that is decoded: routes, their legs, and each leg's steps. *)
Record Distance : Type := mkDistance { Value : float64 }.

Record Step : Type := mkStep {
  step_Distance : Distance;
  Html_instructions : string
}.

Record Leg : Type := mkLeg {
  leg_Distance : Distance;
  Steps : list Step
}.

Record Route : Type := mkRoute { Legs : list Leg }.

Record Directions : Type := mkDirections { Routes : list Route }.

(** [type Response struct { FinalRate float64; Cost float64 }] *)
Record Response : Type := mkResponse { FinalRate : float64; Cost : float64 }.

(** The zero value of [Driver], what [var driver Driver] holds. *)
Definition zeroDriver : Driver := mkDriver "" f0.

(** ** Regular expressions

    [regexp.Match(pattern, b)] reports whether the byte slice [b]
    contains any match of [pattern].  The patterns are kept as syntax
    trees; matching is by derivatives. *)

Module Regexp.

Inductive t : Type :=
| Fail                      (* matches nothing *)
| Empty                     (* matches the empty string *)
| Lit (c : ascii)           (* a literal byte *)
| Digit                     (* \d, an ASCII digit *)
| Any                       (* any byte *)
| Seq (r1 r2 : t)           (* r1 r2 *)
| Alt (r1 r2 : t)           (* r1|r2 *)
| Star (r : t)              (* r* *)
| Plus (r : t)              (* r+ *)
| Group (r : t).            (* (r) *)

Definition is_digit (c : ascii) : bool :=
  let n := N_of_ascii c in (48 <=? n)%N && (n <=? 57)%N.

(** The language of a pattern. *)
Inductive matches : t -> list ascii -> Prop :=
| m_empty : matches Empty []
| m_lit c : matches (Lit c) [c]
| m_digit c : is_digit c = true -> matches Digit [c]
| m_any c : matches Any [c]
| m_seq r1 r2 u v : matches r1 u -> matches r2 v -> matches (Seq r1 r2) (u ++ v)
| m_alt_l r1 r2 u : matches r1 u -> matches (Alt r1 r2) u
| m_alt_r r1 r2 u : matches r2 u -> matches (Alt r1 r2) u
| m_star_nil r : matches (Star r) []
| m_star_cons r u v : matches r u -> matches (Star r) v -> matches (Star r) (u ++ v)
| m_plus r u v : matches r u -> matches (Star r) v -> matches (Plus r) (u ++ v)
| m_group r u : matches r u -> matches (Group r) u.

(** Does the pattern match the empty string? *)
Fixpoint nullable (r : t) : bool :=
  match r with
  | Fail => false
  | Empty => true
  | Lit _ => false
  | Digit => false
  | Any => false
  | Seq r1 r2 => nullable r1 && nullable r2
  | Alt r1 r2 => nullable r1 || nullable r2
  | Star _ => true
  | Plus r => nullable r
  | Group r => nullable r
  end.

(** What is left of the pattern after the byte [c]. *)
Fixpoint deriv (c : ascii) (r : t) : t :=
  match r with
  | Fail => Fail
  | Empty => Fail
  | Lit d => if Ascii.eqb c d then Empty else Fail
  | Digit => if is_digit c then Empty else Fail
  | Any => Empty
  | Seq r1 r2 =>
      if nullable r1
      then Alt (Seq (deriv c r1) r2) (deriv c r2)
      else Seq (deriv c r1) r2
  | Alt r1 r2 => Alt (deriv c r1) (deriv c r2)
  | Star r => Seq (deriv c r) (Star r)
  | Plus r => Seq (deriv c r) (Star r)
  | Group r => deriv c r
  end.

(** Does the pattern match a prefix of [b]? *)
Fixpoint match_prefix (r : t) (b : list ascii) : bool :=
  nullable r ||
  match b with
  | [] => false
  | c :: b' => match_prefix (deriv c r) b'
  end.

(** Does the pattern match somewhere in [b]? *)
Fixpoint search (r : t) (b : list ascii) : bool :=
  match_prefix r b ||
  match b with
  | [] => false
  | _ :: b' => search r b'
  end.

(** [regexp.Match]: the error is the one of compiling the pattern; a
    pattern given as a syntax tree has none. *)
Definition Match (pattern : t) (b : list ascii) : bool * option error :=
  (search pattern b, None).

End Regexp.

(** The pattern ["A(\\d)+"] of [CalculateCost]. *)
Definition aRoadPattern : Regexp.t :=
  Regexp.Seq (Regexp.Lit "A") (Regexp.Plus (Regexp.Group Regexp.Digit)).

(** ** The outside world

    The handler talks to three things: the HTTP request it answers,
    the drivers and directions services, and the clock.  What they
    answer is the environment [Env] of a request; what the handler does
    to them is recorded in the [World]. *)

Inductive result (A : Type) : Type :=
| Ok (a : A)
| Err (e : error).
Arguments Ok {A} a.
Arguments Err {A} e.

Record Env : Type := mkEnv {
  (** [decoder.Decode(&journey)] on the body of the incoming request *)
  request_Decode : result Journey;
  (** [http.NewRequest("GET", config.driversUrl, nil)]: its error *)
  drivers_NewRequest : option error;
  (** [client.Do(req)] to the drivers service: its error *)
  drivers_Do : option error;
  (** [decoder.Decode(&drivers)]: the decoded [map[string]Driver], as
      the list of its entries in the order [range] visits them *)
  drivers_Decode : result (list (string * Driver));
  (** [json.Marshal(journey)]: its error *)
  journey_Marshal : Journey -> option error;
  (** [http.NewRequest("GET", config.directionsUrl, ...)]: its error *)
  directions_NewRequest : Journey -> option error;
  (** [client.Do(req)] to the directions service: its error *)
  directions_Do : Journey -> option error;
  (** [decoder.Decode(&directions)] *)
  directions_Decode : Journey -> result Directions;
  (** the hour of [time.Now().Clock()] *)
  clock_hour : Z
}.

(** Requests sent out by [client.Do]. *)
Inductive Outbound : Type :=
| DriversRequest
| DirectionsRequest (journey : Journey).

(** Lines given to [log.Print] and [log.Printf]. *)
Inductive LogEntry : Type :=
| LogError (e : error)
| LogText (s : string)
| LogJourney (driver : string) (distance rate multiplier finalRate cost : float64).

(** What is given to [w.Write]: a text, or the JSON of a [Response]. *)
Inductive Payload : Type :=
| Text (s : string)
| ResponseJSON (r : Response).

Record World : Type := mkWorld {
  sent : list Outbound;          (* outbound requests, latest first *)
  logged : list LogEntry;        (* log lines, latest first *)
  status : option Z;             (* the status code of the reply, once set *)
  written : list Payload         (* the body of the reply, latest first *)
}.

Definition emptyWorld : World := mkWorld [] [] None [].

(** State passing. *)
Definition M (A : Type) : Type := World -> A * World.

Definition ret {A : Type} (a : A) : M A := fun w => (a, w).

Definition bind {A B : Type} (m : M A) (k : A -> M B) : M B :=
  fun w => let (a, w') := m w in k a w'.

Declare Scope go_scope.
Delimit Scope go_scope with go.
Notation "x <- m ;; k" := (bind m (fun x => k))
  (at level 61, m at next level, right associativity) : go_scope.
Notation "' p <- m ;; k" := (bind m (fun x => let 'p := x in k))
  (at level 61, p pattern, m at next level, right associativity) : go_scope.
Notation "m ;; k" := (bind m (fun _ => k))
  (at level 61, right associativity) : go_scope.
Local Open Scope go_scope.

(** [client.Do(req)]: the request goes out, the error comes back. *)
Definition client_Do (req : Outbound) (err : option error) : M (option error) :=
  fun w => (err, mkWorld (req :: sent w) (logged w) (status w) (written w)).

Definition log_Print (l : LogEntry) : M unit :=
  fun w => (tt, mkWorld (sent w) (l :: logged w) (status w) (written w)).

(** [w.WriteHeader(code)]: the first status code written stands. *)
Definition w_WriteHeader (code : Z) : M unit :=
  fun w => (tt, mkWorld (sent w) (logged w)
                  (match status w with None => Some code | s => s end)
                  (written w)).

Definition StatusOK : Z := 200.
Definition StatusBadRequest : Z := 400.
Definition StatusInternalServerError : Z := 500.

(** [w.Write(b)]: writes the header with [StatusOK] when none was
    written yet. *)
Definition w_Write (b : Payload) : M unit :=
  fun w => (tt, mkWorld (sent w) (logged w)
                  (match status w with None => Some StatusOK | s => s end)
                  (b :: written w)).

(** [json.Marshal(response)]: NaN and the infinities have no JSON. *)
Definition json_Marshal (r : Response) : result Payload :=
  if F64.is_finite (FinalRate r) && F64.is_finite (Cost r)
  then Ok (ResponseJSON r)
  else Err "json: unsupported value".

(** ** FindBestDriver *)

(** One turn of the loop [for _, curDriver := range drivers]. *)
Definition lowestStep (acc : float64 * Driver) (entry : string * Driver)
  : float64 * Driver :=
  let (lowest, driver) := acc in
  let curDriver := snd entry in
  if (Rate curDriver <? lowest)%f64
  then (Rate curDriver, curDriver)
  else (lowest, driver).

Definition FindBestDriver (env : Env) : M (Driver * Z * option error) :=
  let driver := zeroDriver in
  match drivers_NewRequest env with
  | None =>
      err2 <- client_Do DriversRequest (drivers_Do env) ;;
      match err2 with
      | None =>
          match drivers_Decode env with
          | Ok drivers =>
              let lowest := F64.inf in
              let (lowest, driver) := fold_left lowestStep drivers (lowest, driver) in
              ret (driver, Z.of_nat (List.length drivers), None)
          | Err _ =>
              ret (driver, 1, Some "Error: Response body decoding failed")
          end
      | Some _ => ret (driver, 1, Some "Error: HTTP request sending gailed")
      end
  | Some _ => ret (driver, 1, Some "Error: HTTP request creation gailed")
  end.

(** ** CalculateCost *)

(** The loop over the steps of the leg: the sum of the distances of the
    steps whose instruction matches the pattern, or the error of the
    match. *)
Fixpoint aRoadLoop (steps : list Step) (aRoadTotal : float64) : result float64 :=
  match steps with
  | [] => Ok aRoadTotal
  | step :: steps' =>
      let (matched, err) :=
        Regexp.Match aRoadPattern (list_ascii_of_string (Html_instructions step)) in
      match matched, err with
      | true, None => aRoadLoop steps' (aRoadTotal + Value (step_Distance step))%f64
      | _, Some e => Err e
      | false, None => aRoadLoop steps' aRoadTotal
      end
  end.

(** The three conditions that double the multiplier. *)
Definition roadRule (aRoadTotal legDistance : float64) : bool :=
  (aRoadTotal >? legDistance / f2)%f64.

Definition scarcityRule (numDrivers : Z) : bool := (numDrivers <? 5)%Z.

Definition offPeakRule (hour : Z) : bool := ((hour >? 22) || (hour <? 6))%Z.

(** [multiplier := 1.0], then [multiplier *= 2] for each condition met. *)
Definition applyRules (road scarcity offPeak : bool) : float64 :=
  let multiplier := f1 in
  let multiplier := if road then (multiplier * f2)%f64 else multiplier in
  let multiplier := if scarcity then (multiplier * f2)%f64 else multiplier in
  let multiplier := if offPeak then (multiplier * f2)%f64 else multiplier in
  multiplier.

Definition ErrNoRoute : error := "Error: No Route Found".

(** The directions of the journey, as the first part of [CalculateCost]
    gets them. *)
Definition fetchDirections (env : Env) (journey : Journey) : M (result Directions) :=
  match journey_Marshal env journey with
  | None =>
      match directions_NewRequest env journey with
      | None =>
          err2 <- client_Do (DirectionsRequest journey) (directions_Do env journey) ;;
          match err2 with
          | None =>
              match directions_Decode env journey with
              | Err err3 =>
                  log_Print (LogError err3) ;;
                  ret (Err "Error: Response body decoding failed")
              | Ok directions => ret (Ok directions)
              end
          | Some _ => ret (Err "Error: HTTP request sending gailed")
          end
      | Some _ => ret (Err "Error: HTTP request creation gailed")
      end
  | Some _ => ret (Err "Error: Could not create JSON from journey")
  end.

Definition CalculateCost (env : Env) (journey : Journey) (driver : Driver)
    (numDrivers : Z) : M (float64 * float64 * option error) :=
  fetched <- fetchDirections env journey ;;
  match fetched with
  | Err e => ret (f0, f0, Some e)
  | Ok directions =>
      match Routes directions with
      | [] => ret (f0, f0, Some ErrNoRoute)
      | route0 :: _ =>
          match Legs route0 with
          | [] => ret (f0, f0, Some ErrNoRoute)
          | leg0 :: _ =>
              match aRoadLoop (Steps leg0) f0 with
              | Err err => ret (f0, f0, Some err)
              | Ok aRoadTotal =>
                  let distance := Value (leg_Distance leg0) in
                  let multiplier :=
                    applyRules (roadRule aRoadTotal distance)
                               (scarcityRule numDrivers)
                               (offPeakRule (clock_hour env)) in
                  let cost := (distance / f1000 * Rate driver * multiplier)%f64 in
                  log_Print (LogJourney (Name driver) distance (Rate driver)
                               multiplier (multiplier * Rate driver)%f64 cost) ;;
                  ret (cost, (multiplier * Rate driver)%f64, None)
              end
          end
      end
  end.

(** ** RiderRequest *)

Definition NoDriversMessage : string := "No drivers available at this time.".

Definition RiderRequest (env : Env) : M unit :=
  match request_Decode env with
  | Ok journey =>
      '(drv, num, err1) <- FindBestDriver env ;;
      match err1 with
      | None =>
          if negb (Name drv =? "")%string then
            let driver := drv in
            let numDrivers := num in
            '(cst, final, err) <- CalculateCost env journey driver numDrivers ;;
            match err with
            | None =>
                let response := mkResponse final cst in
                match json_Marshal response with
                | Ok enc =>
                    w_WriteHeader StatusOK ;;
                    w_Write enc
                | Err err =>
                    w_WriteHeader StatusInternalServerError ;;
                    log_Print (LogError err)
                end
            | Some err =>
                w_WriteHeader StatusInternalServerError ;;
                log_Print (LogError err)
            end
          else
            w_Write (Text NoDriversMessage) ;;
            log_Print (LogText "Tried finding best driver, but none available.")
      | Some err1 =>
          w_WriteHeader StatusInternalServerError ;;
          log_Print (LogError err1)
      end
  | Err err =>
      w_WriteHeader StatusBadRequest ;;
      log_Print (LogError err)
  end.

(** The comparison of two finite numbers of one sign is a lexicographic
    one, on the exponent then on the mantissa. *)
Definition lexcmp (e1 : Z) (m1 : positive) (e2 : Z) (m2 : positive) : comparison :=
  match Z.compare e1 e2 with
  | Lt => Lt
  | Gt => Gt
  | Eq => Pos.compare_cont Eq m1 m2
  end.

(** ** What a run returns and leaves *)

Definition returned {A : Type} (m : M A) (w : World) : A := fst (m w).
Definition left_by {A : Type} (m : M A) (w : World) : World := snd (m w).

(** The reply the caller gets: status code and body, in writing order. *)
Definition reply (w : World) : option Z * list Payload :=
  (status w, rev (written w)).

(** A roster as [encoding/json] decodes it: every rate is a JSON number,
    hence finite. *)
Definition decodedRoster (drivers : list (string * Driver)) : bool :=
  forallb (fun entry => F64.is_finite (Rate (snd entry))) drivers.

(** The drivers service answered and its answer decoded to [drivers]. *)
Definition rosterIs (env : Env) (drivers : list (string * Driver)) : Prop :=
  drivers_NewRequest env = None /\
  drivers_Do env = None /\
  drivers_Decode env = Ok drivers.

(** The directions service answered and its answer decoded. *)
Definition directionsAre (env : Env) (journey : Journey) (d : Directions) : Prop :=
  journey_Marshal env journey = None /\
  directions_NewRequest env journey = None /\
  directions_Do env journey = None /\
  directions_Decode env journey = Ok d.

(** Was a request sent to the directions service? *)
Definition isDirectionsRequest (o : Outbound) : bool :=
  match o with
  | DirectionsRequest _ => true
  | DriversRequest => false
  end.

(** What holds of [(lowest, driver)] in [FindBestDriver] after the loop
    went over the entries [seen]. *)
Definition lowestInv (seen : list (string * Driver)) (acc : float64 * Driver) : Prop :=
  let (lowest, driver) := acc in
  match seen with
  | [] => lowest = F64.inf /\ driver = zeroDriver
  | _ :: _ =>
      Rate driver = lowest /\
      F64.is_finite lowest = true /\
      In driver (map snd seen) /\
      forall entry, In entry seen -> (lowest <=? Rate (snd entry))%f64 = true
  end.

(** The bytes of the instruction of a step, [[]byte(step.Html_instructions)]. *)
Definition instructionBytes (step : Step) : list ascii :=
  list_ascii_of_string (Html_instructions step).

(** A text names an A road when it contains the letter A followed by one
    or more digits. *)
Definition namesARoad (text : list ascii) : Prop :=
  exists pre digits post,
    text = pre ++ "A"%char :: digits ++ post /\
    digits <> [] /\
    forallb Regexp.is_digit digits = true.

(** One turn of the loop over the steps, when the match has no error. *)
Definition aRoadStep (aRoadTotal : float64) (step : Step) : float64 :=
  if fst (Regexp.Match aRoadPattern (instructionBytes step))
  then (aRoadTotal + Value (step_Distance step))%f64
  else aRoadTotal.

(** The multiplier of [CalculateCost] for a leg, a number of drivers and
    an hour. *)
Definition legMultiplier (leg : Leg) (numDrivers hour : Z) : float64 :=
  applyRules (roadRule (fold_left aRoadStep (Steps leg) f0) (Value (leg_Distance leg)))
             (scarcityRule numDrivers)
             (offPeakRule hour).

(** ** Sample requests *)

(** An environment in which every request goes through: the roster and
    the directions are the given ones, the clock shows [hour]. *)
Definition envOf (drivers : result (list (string * Driver)))
    (directions : result Directions) (hour : Z) : Env :=
  mkEnv (Ok (mkJourney "Exeter" "Bristol")) None None drivers
        (fun _ => None) (fun _ => None) (fun _ => None)
        (fun _ => directions) hour.

Definition sampleJourney : Journey := mkJourney "Exeter" "Bristol".

(** Three drivers, of rates 10, 7 and 12. *)
Definition sampleRoster : list (string * Driver) :=
  [ ("ann", mkDriver "ann" (F64.of_Z 10));
    ("bob", mkDriver "bob" (F64.of_Z 7));
    ("cyd", mkDriver "cyd" (F64.of_Z 12)) ].

(** A leg of 10000 m, 6000 m of which on the A38. *)
Definition sampleLeg : Leg :=
  mkLeg (mkDistance (F64.of_Z 10000))
    [ mkStep (mkDistance (F64.of_Z 1500)) "Head <b>north</b> on <b>High St</b>";
      mkStep (mkDistance (F64.of_Z 6000)) "Merge onto <b>A38</b>";
      mkStep (mkDistance (F64.of_Z 2500)) "Turn <b>left</b> onto <b>Park Row</b>" ].

Definition sampleDirections : Directions := mkDirections [ mkRoute [ sampleLeg ] ].

(** The request of the worked example, at 14 h. *)
Definition sampleEnv : Env := envOf (Ok sampleRoster) (Ok sampleDirections) 14.

(** A leg announced with distance 0, whose one step runs 10 m on the A1. *)
Definition zeroLeg : Leg :=
  mkLeg (mkDistance f0)
    [ mkStep (mkDistance (F64.of_Z 10)) "Continue onto <b>A1</b>" ].

(** A leg of 500 m on no A road. *)
Definition shortLeg : Leg :=
  mkLeg (mkDistance (F64.of_Z 500))
    [ mkStep (mkDistance (F64.of_Z 500)) "Head <b>east</b> on <b>Mill Lane</b>" ].

(** A leg of 1500 m on no A road. *)
Definition midLeg : Leg :=
  mkLeg (mkDistance (F64.of_Z 1500))
    [ mkStep (mkDistance (F64.of_Z 1500)) "Head <b>west</b> on <b>Mill Lane</b>" ].

(** A driver whose rate is 2^1023, about 8.99e307. *)
Definition dearDriver : Driver := mkDriver "max" (F64.of_scaled 1 1023).

(** A driver whose rate is 2^-1074, about 4.94e-324, the least positive
    float64. *)
Definition cheapDriver : Driver := mkDriver "min" (F64.of_scaled 1 (-1074)).

Definition dearEnv : Env :=
  envOf (Ok [("max", dearDriver)]) (Ok (mkDirections [mkRoute [shortLeg]])) 14.

Definition cheapEnv : Env :=
  envOf (Ok [("min", cheapDriver)]) (Ok (mkDirections [mkRoute [midLeg]])) 14.

(** A request for which the drivers service is down. *)
Definition downEnv : Env :=
  mkEnv (Ok sampleJourney) None (Some "dial tcp: connection refused")
        (Err "unreachable") (fun _ => None) (fun _ => None) (fun _ => None)
        (fun _ => Ok sampleDirections) 14.

(** A roster whose cheapest entry carries no name. *)
Definition namelessRoster : list (string * Driver) :=
  [ ("ann", mkDriver "ann" (F64.of_Z 10));
    ("ghost", mkDriver "" (F64.of_Z 3)) ].

Definition namelessEnv : Env := envOf (Ok namelessRoster) (Ok sampleDirections) 14.

(** A request for which the directions have no route. *)
Definition noRouteEnv : Env := envOf (Ok sampleRoster) (Ok (mkDirections [])) 14.

Definition zeroLegEnv : Env :=
  envOf (Ok sampleRoster) (Ok (mkDirections [mkRoute [zeroLeg]])) 14.

(** ** More on the rider service *)

(** What holds of [(lowest, driver)] in [FindBestDriver] after the loop
    went over [seen], with the place of the selected driver: the entries
    before it have a greater rate, the entries after it no lesser one. *)
Definition firstLowestInv (seen : list (string * Driver))
    (acc : float64 * Driver) : Prop :=
  let (lowest, driver) := acc in
  match seen with
  | [] => lowest = F64.inf /\ driver = zeroDriver
  | _ :: _ =>
      Rate driver = lowest /\
      F64.is_finite lowest = true /\
      exists pre name post,
        seen = pre ++ (name, driver) :: post /\
        (forall entry, In entry pre -> (lowest <? Rate (snd entry))%f64 = true) /\
        (forall entry, In entry post -> (lowest <=? Rate (snd entry))%f64 = true)
  end.

(** Zero, positive, or not a number: the values [x] for which [x < 0]
    is false. *)
Definition nonnegative (x : float64) : bool :=
  match x with
  | S754_zero _ => true
  | S754_infinity s => negb s
  | S754_nan => true
  | S754_finite s _ _ => negb s
  end.

(** Does the step add to the total of the A roads? *)
Definition isARoadStep (step : Step) : bool :=
  fst (Regexp.Match aRoadPattern (instructionBytes step)).

(** All the drivers of the roster have a name. *)
Definition allNamed (drivers : list (string * Driver)) : bool :=
  forallb (fun entry => negb (Name (snd entry) =? "")%string) drivers.

(** ** State passing for the other services *)

Definition ST (S A : Type) : Type := S -> A * S.

Definition sret {S A : Type} (a : A) : ST S A := fun s => (a, s).

Definition sbind {S A B : Type} (m : ST S A) (k : A -> ST S B) : ST S B :=
  fun s => let (a, s') := m s in k a s'.

Declare Scope srv_scope.
Delimit Scope srv_scope with srv.
Notation "x <- m ;; k" := (sbind m (fun x => k))
  (at level 61, m at next level, right associativity) : srv_scope.
Notation "' p <- m ;; k" := (sbind m (fun x => let 'p := x in k))
  (at level 61, p pattern, m at next level, right associativity) : srv_scope.
Notation "m ;; k" := (sbind m (fun _ => k))
  (at level 61, right associativity) : srv_scope.

Definition StatusCreated : Z := 201.
Definition StatusNotFound : Z := 404.

(** ** The drivers service *)

(** The roster is a Go map from names to drivers. *)
Module SMap := FMapAVL.Make String_as_OT.
Module SMapFacts := FMapFacts.Facts SMap.

Module Drivers.

(** [type Config struct], of which the handlers read [apiKey],
    [authKey] and [authUrl]. *)
Record Config : Type := mkConfig {
  apiKey : string;
  authKey : string;
  authUrl : string;
  port : string
}.

(** [type Driver struct { Id string; Name string; Rate float64 }] *)
Record Driver : Type := mkDriver { Id : string; Name : string; Rate : float64 }.

(** What the handlers read of a request. *)
Record Request : Type := mkRequest {
  (** [r.Header.Get("x-api-key")] *)
  header_x_api_key : string;
  (** [mux.Vars(r)["user"]] *)
  vars_user : string;
  (** [decoder.Decode(&driver)] on the body, into the zero [Driver] *)
  body_Decode : result Driver
}.

(** The auth service as [Authenticate] meets it, by the URL asked. *)
Record AuthEnv : Type := mkAuthEnv {
  (** [http.NewRequest("GET", url, nil)]: its error *)
  auth_NewRequest : string -> option error;
  (** [client.Do(req)]: its error *)
  auth_Do : string -> option error;
  (** [ioutil.ReadAll(resp.Body)] *)
  auth_ReadAll : string -> result string
}.

(** What is given to [w.Write]: the JSON of a driver or of the roster. *)
Inductive Payload : Type :=
| DriverJSON (d : Driver)
| RosterJSON (m : SMap.t Driver).

Record Server : Type := mkServer {
  drivers : SMap.t Driver;       (* var drivers map[string]Driver *)
  status : option Z;             (* the status code of the reply, once set *)
  written : list Payload;        (* the body of the reply, latest first *)
  logged : list string;          (* log lines, latest first *)
  authSent : list string         (* URLs asked of the auth service, latest first *)
}.

(** The server with the roster [m], before it answers a request. *)
Definition fresh (m : SMap.t Driver) : Server := mkServer m None [] [] [].

Definition w_WriteHeader (code : Z) : ST Server unit :=
  fun s => (tt, mkServer (drivers s)
                  (match status s with None => Some code | c => c end)
                  (written s) (logged s) (authSent s)).

Definition w_Write (b : Payload) : ST Server unit :=
  fun s => (tt, mkServer (drivers s)
                  (match status s with None => Some StatusOK | c => c end)
                  (b :: written s) (logged s) (authSent s)).

Definition log_Print (l : string) : ST Server unit :=
  fun s => (tt, mkServer (drivers s) (status s) (written s) (l :: logged s)
                  (authSent s)).

Definition client_Do (url : string) (err : option error) : ST Server (option error) :=
  fun s => (err, mkServer (drivers s) (status s) (written s) (logged s)
                   (url :: authSent s)).

(** [drivers[index]], with its [ok]. *)
Definition lookup (index : string) : ST Server (option Driver) :=
  fun s => (SMap.find index (drivers s), s).

(** [drivers[index] = driver] *)
Definition store (index : string) (driver : Driver) : ST Server unit :=
  fun s => (tt, mkServer (SMap.add index driver (drivers s)) (status s)
                  (written s) (logged s) (authSent s)).

(** [delete(drivers, user)] *)
Definition delete (user : string) : ST Server unit :=
  fun s => (tt, mkServer (SMap.remove user (drivers s)) (status s)
                  (written s) (logged s) (authSent s)).

(** [json.Marshal] of a driver and of the roster: NaN and the infinities
    have no JSON. *)
Definition json_Marshal_driver (d : Driver) : result Payload :=
  if F64.is_finite (Rate d) then Ok (DriverJSON d)
  else Err "json: unsupported value".

Definition json_Marshal_roster (m : SMap.t Driver) : result Payload :=
  if forallb (fun entry => F64.is_finite (Rate (snd entry))) (SMap.elements m)
  then Ok (RosterJSON m)
  else Err "json: unsupported value".

(** [Authenticate]: the body of the answer of the auth service is the
    user id. *)
Definition Authenticate (config : Config) (auth : AuthEnv) (key : string)
  : ST Server (string * option error) :=
  (let url := authUrl config ++ "/" ++ key in
   match auth_NewRequest auth url with
   | None =>
       err2 <- client_Do url (auth_Do auth url) ;;
       match err2 with
       | None =>
           match auth_ReadAll auth url with
           | Ok body => sret (body, None)
           | Err err3 => sret ("", Some err3)
           end
       | Some err2 => sret ("", Some err2)
       end
   | Some err1 => sret ("", Some err1)
   end)%srv%string.

Definition Create (config : Config) (auth : AuthEnv) (r : Request)
  : ST Server unit :=
  ('(id, err) <- Authenticate config auth (header_x_api_key r) ;;
   match err with
   | None =>
       if (id =? "")%string then
         w_WriteHeader StatusBadRequest ;;
         log_Print "Error: Invalid user API key"
       else
         let userId := id in
         match body_Decode r with
         | Ok driver =>
             if negb (Name driver =? "")%string then
               let driver := mkDriver userId (Name driver) (Rate driver) in
               let index := Name driver in
               found <- lookup index ;;
               match found with
               | None =>
                   w_WriteHeader StatusCreated ;;
                   store index driver ;;
                   log_Print ("Created driver: " ++ index)%string
               | Some _ => w_WriteHeader StatusBadRequest
               end
             else w_WriteHeader StatusBadRequest
         | Err _ => w_WriteHeader StatusBadRequest
         end
   | Some _ => w_WriteHeader StatusInternalServerError
   end)%srv.

Definition Read (config : Config) (r : Request) : ST Server unit :=
  (if negb (header_x_api_key r =? apiKey config)%string then
     w_WriteHeader StatusBadRequest
   else
     let user := vars_user r in
     found <- lookup user ;;
     match found with
     | Some driver =>
         match json_Marshal_driver driver with
         | Ok enc =>
             w_WriteHeader StatusOK ;;
             w_Write enc ;;
             log_Print ("Read driver: " ++ user)%string
         | Err _ => w_WriteHeader StatusInternalServerError
         end
     | None => w_WriteHeader StatusNotFound
     end)%srv.

Definition ReadAll (config : Config) (r : Request) : ST Server unit :=
  (if negb (header_x_api_key r =? apiKey config)%string then
     w_WriteHeader StatusBadRequest
   else
     fun s =>
       match json_Marshal_roster (drivers s) with
       | Ok enc => (w_Write enc ;; log_Print "Read all drivers") s
       | Err _ => w_WriteHeader StatusInternalServerError s
       end)%srv.

Definition Update (config : Config) (auth : AuthEnv) (r : Request)
  : ST Server unit :=
  ('(id, err) <- Authenticate config auth (header_x_api_key r) ;;
   match err with
   | None =>
       if (id =? "")%string then w_WriteHeader StatusBadRequest
       else
         let userId := id in
         match body_Decode r with
         | Ok driver =>
             let driver := mkDriver userId (Name driver) (Rate driver) in
             let index := Name driver in
             found <- lookup index ;;
             match found with
             | Some drv =>
                 if (Id drv =? userId)%string then
                   w_WriteHeader StatusOK ;;
                   store index driver ;;
                   log_Print ("Updated driver: " ++ index)%string
                 else w_WriteHeader StatusBadRequest
             | None => w_WriteHeader StatusBadRequest
             end
         | Err _ => w_WriteHeader StatusBadRequest
         end
   | Some _ => w_WriteHeader StatusBadRequest
   end)%srv.

Definition Delete (config : Config) (auth : AuthEnv) (r : Request)
  : ST Server unit :=
  ('(id, err) <- Authenticate config auth (header_x_api_key r) ;;
   match err with
   | None =>
       if (id =? "")%string then w_WriteHeader StatusBadRequest
       else
         let userId := id in
         let user := vars_user r in
         found <- lookup user ;;
         match found with
         | Some driver =>
             if (Id driver =? userId)%string then
               w_WriteHeader StatusOK ;;
               delete user ;;
               log_Print ("Deleted driver: " ++ user)%string
             else w_WriteHeader StatusBadRequest
         | None => w_WriteHeader StatusBadRequest
         end
   | Some _ => w_WriteHeader StatusBadRequest
   end)%srv.

(** The routes of [handleRequests]. *)
Inductive Route : Type :=
| POST_esr_drivers
| GET_esr_drivers_user
| GET_esr_drivers
| PUT_esr_drivers
| DELETE_esr_drivers_user.

Definition handle (config : Config) (auth : AuthEnv) (route : Route)
    (r : Request) : ST Server unit :=
  match route with
  | POST_esr_drivers => Create config auth r
  | GET_esr_drivers_user => Read config r
  | GET_esr_drivers => ReadAll config r
  | PUT_esr_drivers => Update config auth r
  | DELETE_esr_drivers_user => Delete config auth r
  end.

(** The roster after a request is served, and the answer to it. *)
Definition serve (config : Config) (auth : AuthEnv) (m : SMap.t Driver)
    (call : Route * Request) : SMap.t Driver :=
  drivers (snd (handle config auth (fst call) (snd call) (fresh m))).

Definition answer (config : Config) (auth : AuthEnv) (m : SMap.t Driver)
    (call : Route * Request) : option Z * list Payload :=
  let s := snd (handle config auth (fst call) (snd call) (fresh m)) in
  (status s, rev (written s)).

(** The roster after the requests [calls], from the empty map of [main]. *)
Definition rosterAfter (config : Config) (auth : AuthEnv)
    (calls : list (Route * Request)) : SMap.t Driver :=
  fold_left (serve config auth) calls (SMap.empty Driver).

(** What [Authenticate] returns, the server apart. *)
Definition authResult (config : Config) (auth : AuthEnv) (key : string)
  : string * option error :=
  let url := (authUrl config ++ "/" ++ key)%string in
  match auth_NewRequest auth url, auth_Do auth url, auth_ReadAll auth url with
  | Some err1, _, _ => ("", Some err1)
  | None, Some err2, _ => ("", Some err2)
  | None, None, Err err3 => ("", Some err3)
  | None, None, Ok body => (body, None)
  end.

(** The user id that [Authenticate] gives for the key of the request,
    when it gives one that is not empty. *)
Definition userOf (config : Config) (auth : AuthEnv) (r : Request)
  : option string :=
  match authResult config auth (header_x_api_key r) with
  | (id, None) => if (id =? "")%string then None else Some id
  | (_, Some _) => None
  end.

(** Every driver is kept under its name, which is not empty. *)
Definition keyedByName (m : SMap.t Driver) : Prop :=
  forall index d, SMap.find index m = Some d -> Name d = index /\ index <> "".

(** Every rate of the roster is finite. *)
Definition finiteRates (m : SMap.t Driver) : Prop :=
  forall index d, SMap.find index m = Some d -> F64.is_finite (Rate d) = true.

(** A request whose body, when it decodes, carries a JSON number as
    rate, hence a finite one. *)
Definition decodedBody (call : Route * Request) : Prop :=
  match body_Decode (snd call) with
  | Ok d => F64.is_finite (Rate d) = true
  | Err _ => True
  end.

End Drivers.

(** The roster of the drivers service as the rider service decodes it
    from the JSON of [ReadAll]: its [Driver] has no [Id]. *)
Definition rosterSeenByRiders (m : SMap.t Drivers.Driver)
  : list (string * Driver) :=
  map (fun entry =>
         (fst entry, mkDriver (Drivers.Name (snd entry)) (Drivers.Rate (snd entry))))
      (SMap.elements m).

(** ** The auth service *)

Module AuthService.

(** [type Config struct { apiKey, usersPath, port string }] *)
Record Config : Type := mkConfig {
  apiKey : string;
  usersPath : string;
  port : string
}.

(** [type User struct { Id string; Key string }] *)
Record User : Type := mkUser { Id : string; Key : string }.

(** What the handler reads of a request. *)
Record Request : Type := mkRequest {
  (** [r.Header.Get("x-api-key")] *)
  header_x_api_key : string;
  (** [mux.Vars(r)["key"]] *)
  vars_key : string
}.

(** The file of the users, by its path. *)
Record FileEnv : Type := mkFileEnv {
  (** [os.Open(config.usersPath)]: its error *)
  os_Open : string -> option error;
  (** [usersDecoder.Decode(&users)] *)
  users_Decode : string -> result (list User)
}.

Record Server : Type := mkServer {
  status : option Z;             (* the status code of the reply, once set *)
  written : list string;         (* what was given to w.Write, latest first *)
  logged : list string           (* log lines, latest first *)
}.

Definition fresh : Server := mkServer None [] [].

Definition w_WriteHeader (code : Z) : ST Server unit :=
  fun s => (tt, mkServer (match status s with None => Some code | c => c end)
                  (written s) (logged s)).

Definition w_Write (b : string) : ST Server unit :=
  fun s => (tt, mkServer (match status s with None => Some StatusOK | c => c end)
                  (b :: written s) (logged s)).

Definition log_Print (l : string) : ST Server unit :=
  fun s => (tt, mkServer (status s) (written s) (l :: logged s)).

(** The loop over the users: the id of the first user with the key, or
    the empty string. *)
Fixpoint idOfKey (users : list User) (key : string) : string :=
  match users with
  | [] => ""
  | user :: users' =>
      if (Key user =? key)%string then Id user else idOfKey users' key
  end.

Definition Authenticate (config : Config) (files : FileEnv) (r : Request)
  : ST Server unit :=
  (if negb (header_x_api_key r =? apiKey config)%string then
     w_WriteHeader StatusBadRequest
   else
     let key := vars_key r in
     match os_Open files (usersPath config) with
     | Some err =>
         log_Print err ;;
         w_WriteHeader StatusInternalServerError ;;
         w_Write ""
     | None =>
         match users_Decode files (usersPath config) with
         | Err err =>
             log_Print err ;;
             w_WriteHeader StatusInternalServerError ;;
             w_Write ""
         | Ok users =>
             let id := idOfKey users key in
             (if negb (id =? "")%string
              then log_Print ("User authenticated: " ++ id)%string
              else sret tt) ;;
             w_WriteHeader StatusOK ;;
             w_Write id
         end
     end)%srv.

(** The status and the body of the answer. *)
Definition answer (config : Config) (files : FileEnv) (r : Request)
  : option Z * string :=
  let s := snd (Authenticate config files r fresh) in
  (status s, String.concat "" (rev (written s))).

End AuthService.

(** ** The directions service *)

Module DirectionsService.

(** [type Config struct { googleKey, googleUrl, apiKey, port string }] *)
Record Config : Type := mkConfig {
  googleKey : string;
  googleUrl : string;
  apiKey : string;
  port : string
}.

(** What the handler reads of a request. *)
Record Request : Type := mkRequest {
  (** [r.Header.Get("x-api-key")] *)
  header_x_api_key : string;
  (** [decoder.Decode(&journey)] on the body *)
  body_Decode : result Journey
}.

(** Google's Directions API as the handler meets it, by the URL asked. *)
Record GoogleEnv : Type := mkGoogleEnv {
  (** [http.NewRequest("GET", url, nil)]: its error *)
  google_NewRequest : string -> option error;
  (** [client.Do(req)]: its error *)
  google_Do : string -> option error;
  (** [ioutil.ReadAll(resp.Body)] *)
  google_ReadAll : string -> result string
}.

Record Server : Type := mkServer {
  status : option Z;             (* the status code of the reply, once set *)
  written : list string;         (* what was given to w.Write, latest first *)
  logged : list string;          (* log lines, latest first *)
  sent : list string             (* URLs asked of Google, latest first *)
}.

Definition fresh : Server := mkServer None [] [] [].

Definition w_WriteHeader (code : Z) : ST Server unit :=
  fun s => (tt, mkServer (match status s with None => Some code | c => c end)
                  (written s) (logged s) (sent s)).

Definition w_Write (b : string) : ST Server unit :=
  fun s => (tt, mkServer (match status s with None => Some StatusOK | c => c end)
                  (b :: written s) (logged s) (sent s)).

Definition log_Print (l : string) : ST Server unit :=
  fun s => (tt, mkServer (status s) (written s) (l :: logged s) (sent s)).

Definition client_Do (url : string) (err : option error) : ST Server (option error) :=
  fun s => (err, mkServer (status s) (written s) (logged s) (url :: sent s)).

(** [strings.ReplaceAll(s, old, new)] for [old] and [new] of one byte
    each, as in [strings.ReplaceAll(journey.Start, " ", "_")]. *)
Fixpoint strings_ReplaceAll (s : string) (old new : ascii) : string :=
  match s with
  | EmptyString => EmptyString
  | String c s' =>
      String (if Ascii.eqb c old then new else c) (strings_ReplaceAll s' old new)
  end.

(** The URL of the request to Google. *)
Definition googleRequestUrl (config : Config) (journey : Journey) : string :=
  let start := strings_ReplaceAll (Start journey) " " "_" in
  let end_ := strings_ReplaceAll (End_ journey) " " "_" in
  (googleUrl config ++ "?origin=" ++ start ++ "&destination=" ++ end_
     ++ "&key=" ++ googleKey config)%string.

Definition GetDirections (config : Config) (google : GoogleEnv) (r : Request)
  : ST Server unit :=
  (if negb (header_x_api_key r =? apiKey config)%string then
     w_WriteHeader StatusBadRequest
   else
     match body_Decode r with
     | Err _ => w_WriteHeader StatusBadRequest
     | Ok journey =>
         let start := strings_ReplaceAll (Start journey) " " "_" in
         let end_ := strings_ReplaceAll (End_ journey) " " "_" in
         let url :=
           (googleUrl config ++ "?origin=" ++ start ++ "&destination=" ++ end_
              ++ "&key=" ++ googleKey config)%string in
         match google_NewRequest google url with
         | None =>
             err2 <- client_Do url (google_Do google url) ;;
             match err2 with
             | None =>
                 match google_ReadAll google url with
                 | Ok body =>
                     w_Write body ;;
                     log_Print ("Directions request complete: " ++ start
                                  ++ " to " ++ end_)%string
                 | Err _ => w_WriteHeader StatusInternalServerError
                 end
             | Some _ => w_WriteHeader StatusInternalServerError
             end
         | Some _ => w_WriteHeader StatusInternalServerError
         end
     end)%srv.

(** Does the string hold the byte? *)
Fixpoint hasByte (c : ascii) (s : string) : bool :=
  match s with
  | EmptyString => false
  | String c' s' => Ascii.eqb c' c || hasByte c s'
  end.

End DirectionsService.

(** ** Sample requests to the other services *)

Definition driversConfig : Drivers.Config :=
  Drivers.mkConfig "drivers-key" "auth-key" "http://auth/esr_auth" "5420".

(** An auth service that knows the key ["k1"] of the user ["u1"] and
    answers with an empty body for every other key. *)
Definition sampleAuth : Drivers.AuthEnv :=
  Drivers.mkAuthEnv (fun _ => None) (fun _ => None)
    (fun url => if (url =? "http://auth/esr_auth/k1")%string
                then Ok "u1" else Ok "").

(** The user ["u1"] creates the driver ["ann"] at rate 10. *)
Definition createAnn : Drivers.Route * Drivers.Request :=
  (Drivers.POST_esr_drivers,
   Drivers.mkRequest "k1" "" (Ok (Drivers.mkDriver "" "ann" (F64.of_Z 10)))).

(** A request for the driver ["ann"], with the key of the service. *)
Definition readAnn : Drivers.Request :=
  Drivers.mkRequest "drivers-key" "ann" (Err "EOF").

Definition authConfig : AuthService.Config :=
  AuthService.mkConfig "auth-key" "users.json" "5423".

Definition sampleUsers : list AuthService.User :=
  [ AuthService.mkUser "u1" "k1";
    AuthService.mkUser "u2" "k2";
    AuthService.mkUser "u3" "k1" ].

Definition sampleFiles : AuthService.FileEnv :=
  AuthService.mkFileEnv (fun _ => None) (fun _ => Ok sampleUsers).

(** A leg of 3000 m on no A road. *)
Definition sideLeg : Leg :=
  mkLeg (mkDistance (F64.of_Z 3000))
    [ mkStep (mkDistance (F64.of_Z 3000)) "Head <b>south</b> on <b>Elm Rd</b>" ].

(** ** The words of the specification *)

(** The constant 0.5. *)
Definition f_half : float64 := Eval vm_compute in F64.of_scaled 1 (-1).

(** The major-road fraction of the specification,
    [majorRoadDistanceMeters / totalDistanceMeters].  [CalculateCost]
    does not compute it: it compares the total of the A roads with half
    of the distance of the leg. *)
Definition majorRoadFraction (aRoadTotal distance : float64) : float64 :=
  (aRoadTotal / distance)%f64.

(** An ASCII letter. *)
Definition is_letter (c : ascii) : bool :=
  let n := N_of_ascii c in
  ((65 <=? n)%N && (n <=? 90)%N) || ((97 <=? n)%N && (n <=? 122)%N).

(** A text holds a letter code followed by one or more digits: the words
    of the specification for the instruction of a major road, whatever
    the letter. *)
Definition namesRoadCode (text : list ascii) : Prop :=
  exists pre letter digits post,
    text = pre ++ letter :: digits ++ post /\
    is_letter letter = true /\
    digits <> [] /\
    forallb Regexp.is_digit digits = true.

(** The total of the A roads: [aRoadSum steps t r] says that adding to
    [t], in the order of the steps, the distance of every step whose
    instruction names an A road, and of no other step, gives [r]. *)
Inductive aRoadSum : list Step -> float64 -> float64 -> Prop :=
| sum_nil t : aRoadSum [] t t
| sum_add step steps t r :
    namesARoad (instructionBytes step) ->
    aRoadSum steps (t + Value (step_Distance step))%f64 r ->
    aRoadSum (step :: steps) t r
| sum_skip step steps t r :
    ~ namesARoad (instructionBytes step) ->
    aRoadSum steps t r ->
    aRoadSum (step :: steps) t r.

(** A leg of [3 * 2^-1074] m with one step of [2 * 2^-1074] m on the A1:
    two thirds of it are on an A road. *)
Definition tinyLeg : Leg :=
  mkLeg (mkDistance (F64.of_scaled 3 (-1074)))
    [ mkStep (mkDistance (F64.of_scaled 2 (-1074))) "Continue onto <b>A1</b>" ].

Definition tinyLegEnv : Env :=
  envOf (Ok sampleRoster) (Ok (mkDirections [mkRoute [tinyLeg]])) 14.

(** A step of 4000 m on the M5, and a leg made of it. *)
Definition motorwayStep : Step :=
  mkStep (mkDistance (F64.of_Z 4000)) "Merge onto <b>M5</b>".

Definition motorwayLeg : Leg := mkLeg (mkDistance (F64.of_Z 4000)) [ motorwayStep ].





(** * Properties *)

(** ** The order of float64 *)

Section Float64Order.

Lemma lexcmp_refl e m : lexcmp e m e m = Eq.
Proof.
  unfold lexcmp. rewrite Z.compare_refl. apply Pos.compare_refl.
Qed.

Lemma lexcmp_antisym e1 m1 e2 m2 :
  lexcmp e2 m2 e1 m1 = CompOpp (lexcmp e1 m1 e2 m2).
Proof.
  unfold lexcmp. rewrite (Z.compare_antisym e1 e2).
  destruct (e1 ?= e2); simpl; try reflexivity.
  apply (Pos.compare_antisym m1 m2).
Qed.

Lemma lexcmp_Lt e1 m1 e2 m2 :
  lexcmp e1 m1 e2 m2 = Lt <-> e1 < e2 \/ (e1 = e2 /\ (m1 < m2)%positive).
Proof.
  unfold lexcmp. fold (Pos.compare m1 m2).
  destruct (Z.compare_spec e1 e2); destruct (Pos.compare_spec m1 m2);
    split; intros; try discriminate; try reflexivity; try lia.
Qed.

Lemma lexcmp_Eq e1 m1 e2 m2 :
  lexcmp e1 m1 e2 m2 = Eq <-> e1 = e2 /\ m1 = m2.
Proof.
  unfold lexcmp. fold (Pos.compare m1 m2).
  destruct (Z.compare_spec e1 e2); destruct (Pos.compare_spec m1 m2);
    split; intros; try discriminate; try reflexivity; try lia.
Qed.

Lemma SFcompare_finite s1 m1 e1 s2 m2 e2 :
  SFcompare (S754_finite s1 m1 e1) (S754_finite s2 m2 e2) =
  Some (match s1, s2 with
        | true, false => Lt
        | false, true => Gt
        | false, false => lexcmp e1 m1 e2 m2
        | true, true => lexcmp e2 m2 e1 m1
        end).
Proof.
  destruct s1, s2; simpl; try reflexivity.
  rewrite lexcmp_antisym. unfold lexcmp. destruct (e1 ?= e2); reflexivity.
Qed.

(** [x < x] is false. *)
Lemma ltb_irrefl (x : float64) : (x <? x)%f64 = false.
Proof.
  unfold F64.ltb, SFltb.
  destruct x as [s|s| |s m e]; try (destruct s; reflexivity); try reflexivity.
  rewrite SFcompare_finite, lexcmp_refl. destruct s; reflexivity.
Qed.

(** [x <= x], but for NaN. *)
Lemma leb_refl (x : float64) : F64.is_nan x = false -> (x <=? x)%f64 = true.
Proof.
  unfold F64.leb, SFleb.
  destruct x as [s|s| |s m e]; intros H; try discriminate;
    try (destruct s; reflexivity).
  rewrite SFcompare_finite, lexcmp_refl. destruct s; reflexivity.
Qed.

(** When [x < y] is false, [y <= x], but for NaN. *)
Lemma ltb_false_leb (x y : float64) :
  F64.is_nan x = false -> F64.is_nan y = false ->
  (x <? y)%f64 = false -> (y <=? x)%f64 = true.
Proof.
  unfold F64.ltb, F64.leb, SFltb, SFleb.
  destruct x as [sx|sx| |sx mx ex], y as [sy|sy| |sy my ey];
    intros Hx Hy; try discriminate;
    try (destruct sx; try destruct sy; simpl; congruence);
    try (destruct sy; simpl; congruence).
  rewrite !SFcompare_finite.
  destruct sx, sy; try (simpl; congruence);
    rewrite (lexcmp_antisym ex mx ey my);
    destruct (lexcmp ex mx ey my); simpl; congruence.
Qed.

(** [x < y] and [y <= z] give [x <= z]. *)
Lemma ltb_leb_trans (x y z : float64) :
  (x <? y)%f64 = true -> (y <=? z)%f64 = true -> (x <=? z)%f64 = true.
Proof.
  unfold F64.ltb, F64.leb, SFltb, SFleb.
  destruct x as [sx|sx| |sx mx ex], y as [sy|sy| |sy my ey],
           z as [sz|sz| |sz mz ez];
    try (simpl; discriminate);
    try (destruct sx; simpl; congruence);
    try (destruct sy; simpl; congruence);
    try (destruct sz; simpl; congruence);
    try (destruct sx, sy; simpl; congruence);
    try (destruct sx, sz; simpl; congruence);
    try (destruct sy, sz; simpl; congruence);
    try (destruct sx, sy, sz; simpl; congruence).
  all: rewrite ?SFcompare_finite.
  all: try (destruct sx; try destruct sy; try destruct sz; simpl; congruence).
  destruct sx, sy, sz; try (simpl; congruence).
  - destruct (lexcmp ey my ex mx) eqn:E1; try discriminate.
    destruct (lexcmp ez mz ey my) eqn:E2; try discriminate; intros _ _;
      apply lexcmp_Lt in E1;
      (apply lexcmp_Lt in E2 || apply lexcmp_Eq in E2);
      assert (E : lexcmp ez mz ex mx = Lt) by (apply lexcmp_Lt; lia);
      rewrite E; reflexivity.
  - destruct (lexcmp ex mx ey my) eqn:E1; try discriminate.
    destruct (lexcmp ey my ez mz) eqn:E2; try discriminate; intros _ _;
      apply lexcmp_Lt in E1;
      (apply lexcmp_Lt in E2 || apply lexcmp_Eq in E2);
      assert (E : lexcmp ex mx ez mz = Lt) by (apply lexcmp_Lt; lia);
      rewrite E; reflexivity.
Qed.

End Float64Order.

(** ** FindBestDriver selects a lowest rate *)

Section LowestRate.

Lemma finite_not_nan (x : float64) : F64.is_finite x = true -> F64.is_nan x = false.
Proof. destruct x; simpl; congruence. Qed.

Lemma finite_ltb_inf (x : float64) :
  F64.is_finite x = true -> (x <? F64.inf)%f64 = true.
Proof. destruct x; simpl; try discriminate; reflexivity. Qed.

Lemma lowestStep_inv seen acc entry :
  F64.is_finite (Rate (snd entry)) = true ->
  lowestInv seen acc ->
  lowestInv (seen ++ [entry]) (lowestStep acc entry).
Proof.
  destruct acc as [lowest driver]. intros Hfin Hinv.
  unfold lowestStep. destruct seen as [|e0 seen]; simpl in Hinv.
  - destruct Hinv as [-> ->].
    rewrite (finite_ltb_inf _ Hfin). simpl.
    repeat split; auto.
    intros e [<-|[]]. apply leb_refl, finite_not_nan, Hfin.
  - destruct Hinv as (Hrate & Hlow & Hin & Hle).
    change ((e0 :: seen) ++ [entry]) with (e0 :: (seen ++ [entry])).
    assert (Hsplit : forall e, In e (e0 :: seen ++ [entry]) ->
                               In e (e0 :: seen) \/ e = entry).
    { intros e [He|He]; [left; left; exact He|].
      apply in_app_or in He. destruct He as [He|[He|[]]]; auto.
      left; right; exact He. }
    destruct (Rate (snd entry) <? lowest)%f64 eqn:Hlt; cbn [lowestInv].
    + repeat split; auto.
      * apply in_map. right. apply in_or_app. right. left. reflexivity.
      * intros e He. apply Hsplit in He. destruct He as [He| ->].
        -- eapply ltb_leb_trans; [exact Hlt | apply Hle, He].
        -- apply leb_refl, finite_not_nan, Hfin.
    + repeat split; auto.
      * rewrite map_cons, map_app. simpl in Hin.
        destruct Hin as [Hin|Hin]; [left; exact Hin|].
        right. apply in_or_app. left. exact Hin.
      * intros e He. apply Hsplit in He. destruct He as [He| ->].
        -- apply Hle, He.
        -- apply ltb_false_leb; auto using finite_not_nan.
Qed.

Lemma lowestLoop_inv drivers : forall seen acc,
  decodedRoster drivers = true ->
  lowestInv seen acc ->
  lowestInv (seen ++ drivers) (fold_left lowestStep drivers acc).
Proof.
  induction drivers as [|entry drivers IH]; intros seen acc Hdec Hinv.
  - rewrite app_nil_r. exact Hinv.
  - simpl in Hdec. apply andb_prop in Hdec. destruct Hdec as [Hfin Hdec].
    simpl fold_left.
    replace (seen ++ entry :: drivers) with ((seen ++ [entry]) ++ drivers)
      by (rewrite <- app_assoc; reflexivity).
    apply IH; [exact Hdec|]. apply lowestStep_inv; assumption.
Qed.

End LowestRate.

(** What [FindBestDriver] returns once the roster is decoded. *)
Lemma FindBestDriver_decoded env drivers w :
  rosterIs env drivers ->
  returned (FindBestDriver env) w =
    (snd (fold_left lowestStep drivers (F64.inf, zeroDriver)),
     Z.of_nat (List.length drivers), None) /\
  left_by (FindBestDriver env) w =
    mkWorld (DriversRequest :: sent w) (logged w) (status w) (written w).
Proof.
  intros (H1 & H2 & H3).
  unfold returned, left_by, FindBestDriver, bind, client_Do.
  rewrite H1, H2, H3.
  destruct (fold_left lowestStep drivers (F64.inf, zeroDriver)); simpl.
  split; reflexivity.
Qed.

(** What [RiderRequest] does once the journey is decoded and
    [FindBestDriver] has returned a driver without a name. *)
Lemma RiderRequest_no_name env journey drivers w :
  request_Decode env = Ok journey ->
  rosterIs env drivers ->
  Name (snd (fold_left lowestStep drivers (F64.inf, zeroDriver))) = "" ->
  left_by (RiderRequest env) w =
    mkWorld (DriversRequest :: sent w)
            (LogText "Tried finding best driver, but none available." :: logged w)
            (match status w with None => Some StatusOK | s => s end)
            (Text NoDriversMessage :: written w).
Proof.
  intros Hj Hr Hname.
  destruct (FindBestDriver_decoded env drivers w Hr) as [Hret Hleft].
  unfold left_by, returned in *. unfold RiderRequest, bind. rewrite Hj.
  destruct (FindBestDriver env w) as [[[drv num] err1] w1].
  simpl in Hret, Hleft. inversion Hret; subst.
  rewrite Hname. simpl. reflexivity.
Qed.

(** C1. For a roster that the drivers service gave and that decoded,
    [FindBestDriver] returns without error the size of the roster and a
    driver whose rate is at most the rate of every driver of the roster,
    and who is one of them when there is one; for the empty roster it
    returns the driver without a name, and [RiderRequest] then answers
    with status 200 and the text "No drivers available at this time." *)
Theorem FindBestDriver_lowest_rate (env : Env) (drivers : list (string * Driver))
    (w : World) :
  rosterIs env drivers ->
  decodedRoster drivers = true ->
  exists driver,
    returned (FindBestDriver env) w
      = (driver, Z.of_nat (List.length drivers), None) /\
    (forall name d, In (name, d) drivers -> (Rate driver <=? Rate d)%f64 = true) /\
    (drivers <> [] -> In driver (map snd drivers)) /\
    (drivers = [] ->
       driver = zeroDriver /\
       forall journey, request_Decode env = Ok journey ->
         reply (left_by (RiderRequest env) emptyWorld)
           = (Some StatusOK, [Text NoDriversMessage])).
Proof.
  intros Hroster Hdec.
  destruct (FindBestDriver_decoded env drivers w Hroster) as [Hret _].
  pose proof (lowestLoop_inv drivers [] (F64.inf, zeroDriver) Hdec
                (conj eq_refl eq_refl)) as Hinv.
  rewrite app_nil_l in Hinv.
  destruct (fold_left lowestStep drivers (F64.inf, zeroDriver))
    as [lowest driver] eqn:Hfold.
  exists driver. split; [exact Hret|].
  destruct drivers as [|entry drivers].
  - simpl in Hinv. destruct Hinv as [_ ->].
    split; [intros ? ? []|]. split; [congruence|].
    intros _. split; [reflexivity|]. intros journey Hj.
    rewrite (RiderRequest_no_name env journey [] emptyWorld Hj Hroster eq_refl).
    reflexivity.
  - cbn [lowestInv] in Hinv. destruct Hinv as (Hrate & _ & Hin & Hle).
    split; [|split; [intros _; exact Hin | discriminate]].
    intros name d Hd. rewrite Hrate. apply (Hle (name, d) Hd).
Qed.

(** ** The matcher finds the matches of the pattern *)

Module RegexpFacts.
Import Regexp.

Create HintDb re.
#[local] Hint Constructors matches : re.

Lemma matches_nil_nullable r s : matches r s -> s = [] -> nullable r = true.
Proof.
  induction 1; intros E; simpl; try discriminate; auto.
  - apply app_eq_nil in E as [-> ->]. rewrite IHmatches1, IHmatches2; auto.
  - rewrite IHmatches; auto.
  - rewrite IHmatches, orb_true_r; auto.
  - apply app_eq_nil in E as [-> _]. auto.
Qed.

Lemma nullable_matches_nil r : nullable r = true -> matches r [].
Proof.
  induction r; simpl; intros E; try discriminate; auto with re.
  - apply andb_prop in E as [E1 E2].
    change (@nil ascii) with (@nil ascii ++ []). auto with re.
  - apply orb_prop in E as [E|E]; auto with re.
  - change (@nil ascii) with (@nil ascii ++ []). auto with re.
Qed.

Lemma nullable_spec r : nullable r = true <-> matches r [].
Proof.
  split; [apply nullable_matches_nil | intros H; eapply matches_nil_nullable; eauto].
Qed.

Lemma seq_inv r1 r2 s :
  matches (Seq r1 r2) s ->
  exists u v, s = u ++ v /\ matches r1 u /\ matches r2 v.
Proof. intros H. inversion H; subst. eauto. Qed.

Lemma plus_inv r s :
  matches (Plus r) s ->
  exists u v, s = u ++ v /\ matches r u /\ matches (Star r) v.
Proof. intros H. inversion H; subst. eauto. Qed.

(** A non-empty match of [r*] starts with a non-empty match of [r]. *)
Lemma star_cons_inv r c s :
  matches (Star r) (c :: s) ->
  exists u v, s = u ++ v /\ matches r (c :: u) /\ matches (Star r) v.
Proof.
  intros H. remember (Star r) as r' eqn:Er. remember (c :: s) as s' eqn:Es.
  revert s Es.
  induction H; intros s0 Es; try discriminate.
  inversion Er; subst r0.
  destruct u as [|c' u].
  - simpl in Es. apply IHmatches2; auto.
  - simpl in Es. inversion Es; subst. exists u, v. auto.
Qed.

Lemma deriv_spec r : forall c s, matches (deriv c r) s <-> matches r (c :: s).
Proof.
  induction r as [| |d| | |r1 IHr1 r2 IHr2|r1 IHr1 r2 IHr2|r IHr|r IHr|r IHr];
    intros c s; simpl.
  - split; intros H; inversion H.
  - split; intros H; inversion H.
  - destruct (Ascii.eqb_spec c d) as [->|Hne]; split; intros H.
    + inversion H; subst. constructor.
    + inversion H; subst. constructor.
    + inversion H.
    + inversion H; subst. congruence.
  - destruct (is_digit c) eqn:Hd; split; intros H.
    + inversion H; subst. constructor. exact Hd.
    + inversion H; subst. constructor.
    + inversion H.
    + inversion H; subst. congruence.
  - split; intros H; inversion H; subst; constructor.
  - assert (Hseq : matches (Seq (deriv c r1) r2) s ->
                   matches (Seq r1 r2) (c :: s)).
    { intros H. inversion H; subst.
      change (c :: u ++ v) with ((c :: u) ++ v).
      constructor; [apply IHr1|]; assumption. }
    assert (Hinv : matches (Seq r1 r2) (c :: s) ->
                   matches (Seq (deriv c r1) r2) s \/
                   (nullable r1 = true /\ matches (deriv c r2) s)).
    { intros H. apply seq_inv in H as (u & v & E & Hu & Hv).
      destruct u as [|c' u]; simpl in E.
      - subst v. right. split; [apply nullable_spec, Hu | apply IHr2, Hv].
      - inversion E; subst. left. constructor; [apply IHr1|]; assumption. }
    destruct (nullable r1) eqn:Hn; split; intros H.
    + inversion H; subst; [auto|].
      change (c :: s) with ([] ++ c :: s).
      constructor; [apply nullable_spec, Hn | apply IHr2; assumption].
    + destruct (Hinv H) as [H'|[_ H']]; auto with re.
    + auto.
    + destruct (Hinv H) as [H'|[H' _]]; [auto | discriminate].
  - split; intros H; inversion H; subst.
    + apply m_alt_l, IHr1; assumption.
    + apply m_alt_r, IHr2; assumption.
    + apply m_alt_l, IHr1; assumption.
    + apply m_alt_r, IHr2; assumption.
  - split; intros H.
    + inversion H; subst.
      change (c :: u ++ v) with ((c :: u) ++ v).
      constructor; [apply IHr|]; assumption.
    + apply star_cons_inv in H as (u & v & -> & Hu & Hv).
      constructor; [apply IHr|]; assumption.
  - split; intros H.
    + inversion H; subst.
      change (c :: u ++ v) with ((c :: u) ++ v).
      constructor; [apply IHr|]; assumption.
    + apply plus_inv in H as (u & v & E & Hu & Hv).
      destruct u as [|c' u]; simpl in E.
      * subst v. apply star_cons_inv in Hv as (u & v & -> & Hu' & Hv').
        constructor; [apply IHr|]; assumption.
      * inversion E; subst. constructor; [apply IHr|]; assumption.
  - split; intros H.
    + constructor. apply IHr. exact H.
    + inversion H; subst. apply IHr. assumption.
Qed.

(** [match_prefix] finds the prefixes that the pattern matches. *)
Lemma match_prefix_spec b : forall r,
  match_prefix r b = true <-> exists u v, b = u ++ v /\ matches r u.
Proof.
  induction b as [|c b IH]; intros r; simpl.
  - rewrite orb_false_r. split.
    + intros H. exists [], []. split; [reflexivity | apply nullable_spec, H].
    + intros (u & v & E & H). symmetry in E. apply app_eq_nil in E as [-> _].
      apply nullable_spec, H.
  - split.
    + intros H. apply orb_prop in H as [H|H].
      * exists [], (c :: b). split; [reflexivity | apply nullable_spec, H].
      * apply IH in H as (u & v & -> & H).
        exists (c :: u), v. split; [reflexivity | apply deriv_spec, H].
    + intros (u & v & E & H). destruct u as [|c' u].
      * apply nullable_spec in H. rewrite H. reflexivity.
      * simpl in E. inversion E; subst. apply orb_true_intro. right.
        apply IH. exists u, v. split; [reflexivity | apply deriv_spec, H].
Qed.

(** [search] finds the matches of the pattern anywhere in [b]. *)
Lemma search_spec r b :
  search r b = true <->
  exists pre u post, b = pre ++ u ++ post /\ matches r u.
Proof.
  induction b as [|c b IH]; simpl.
  - rewrite !orb_false_r. split.
    + intros H. exists [], [], []. split; [reflexivity | apply nullable_spec, H].
    + intros (pre & u & post & E & H). symmetry in E.
      apply app_eq_nil in E as [_ E]. apply app_eq_nil in E as [-> _].
      apply nullable_spec, H.
  - split.
    + intros H. apply orb_prop in H as [H|H].
      * change (nullable r || match_prefix (deriv c r) b = true)
          with (match_prefix r (c :: b) = true) in H.
        apply match_prefix_spec in H as (u & v & E & H).
        exists [], u, v. split; [exact E | exact H].
      * apply IH in H as (pre & u & post & -> & H).
        exists (c :: pre), u, post. split; [reflexivity | exact H].
    + intros (pre & u & post & E & H). apply orb_true_intro.
      destruct pre as [|c' pre].
      * left.
        change (nullable r || match_prefix (deriv c r) b = true)
          with (match_prefix r (c :: b) = true).
        apply match_prefix_spec. exists u, post. split; [exact E | exact H].
      * right. simpl in E. inversion E; subst. apply IH.
        exists pre, u, post. split; [reflexivity | exact H].
Qed.

End RegexpFacts.

(** ** CalculateCost on the first leg of the first route *)

Section FirstLeg.

Lemma aRoadLoop_cons step steps aRoadTotal :
  aRoadLoop (step :: steps) aRoadTotal =
  let (matched, err) := Regexp.Match aRoadPattern (instructionBytes step) in
  match matched, err with
  | true, None => aRoadLoop steps (aRoadTotal + Value (step_Distance step))%f64
  | _, Some e => Err e
  | false, None => aRoadLoop steps aRoadTotal
  end.
Proof. reflexivity. Qed.

Lemma aRoadLoop_fold steps : forall aRoadTotal,
  aRoadLoop steps aRoadTotal = Ok (fold_left aRoadStep steps aRoadTotal).
Proof.
  induction steps as [|step steps IH]; intros acc; simpl; [reflexivity|].
  unfold aRoadStep, instructionBytes, Regexp.Match. simpl fst.
  destruct (Regexp.search aRoadPattern
              (list_ascii_of_string (Html_instructions step))); apply IH.
Qed.

Lemma fetchDirections_decoded env journey d w :
  directionsAre env journey d ->
  fetchDirections env journey w =
    (Ok d, mkWorld (DirectionsRequest journey :: sent w) (logged w)
                   (status w) (written w)).
Proof.
  intros (H1 & H2 & H3 & H4).
  unfold fetchDirections, bind, client_Do. rewrite H1, H2, H3, H4.
  reflexivity.
Qed.

(** With a first leg in the first route, [CalculateCost] returns the
    cost and the final rate of that leg, and no error. *)
Lemma CalculateCost_leg env journey driver numDrivers w d route routes leg legs :
  directionsAre env journey d ->
  Routes d = route :: routes ->
  Legs route = leg :: legs ->
  returned (CalculateCost env journey driver numDrivers) w =
    ((Value (leg_Distance leg) / f1000 * Rate driver
        * legMultiplier leg numDrivers (clock_hour env))%f64,
     (legMultiplier leg numDrivers (clock_hour env) * Rate driver)%f64,
     None).
Proof.
  intros Hd Hr Hl.
  unfold returned, CalculateCost, bind.
  rewrite (fetchDirections_decoded env journey d w Hd), Hr, Hl.
  rewrite aRoadLoop_fold. reflexivity.
Qed.

(** The errors of [fetchDirections] are not the one of a missing route. *)
Lemma fetchDirections_not_ErrNoRoute env journey w e :
  fst (fetchDirections env journey w) = Err e -> e <> ErrNoRoute.
Proof.
  unfold fetchDirections, bind, client_Do, log_Print, ret.
  destruct (journey_Marshal env journey);
    [simpl; intros H; inversion H; discriminate|].
  destruct (directions_NewRequest env journey);
    [simpl; intros H; inversion H; discriminate|].
  destruct (directions_Do env journey);
    [simpl; intros H; inversion H; discriminate|].
  destruct (directions_Decode env journey); simpl; intros H; inversion H.
  discriminate.
Qed.

Lemma fetchDirections_Ok env journey w d :
  fst (fetchDirections env journey w) = Ok d -> directionsAre env journey d.
Proof.
  unfold fetchDirections, bind, client_Do, log_Print, ret, directionsAre.
  destruct (journey_Marshal env journey); [simpl; discriminate|].
  destruct (directions_NewRequest env journey); [simpl; discriminate|].
  destruct (directions_Do env journey); [simpl; discriminate|].
  destruct (directions_Decode env journey); simpl; intros H; inversion H.
  auto.
Qed.

End FirstLeg.

(** C10. When [CalculateCost] returns an error, the cost and the final
    rate it returns are both 0. *)
Theorem CalculateCost_error_zero (env : Env) (journey : Journey) (driver : Driver)
    (numDrivers : Z) (w : World) (cost final : float64) (err : error) :
  returned (CalculateCost env journey driver numDrivers) w = (cost, final, Some err) ->
  cost = f0 /\ final = f0.
Proof.
  unfold returned, CalculateCost, bind.
  destruct (fetchDirections env journey w) as [[d|e] w1]; simpl.
  - destruct (Routes d) as [|route routes]; simpl.
    + intros H; inversion H; auto.
    + destruct (Legs route) as [|leg legs]; simpl.
      * intros H; inversion H; auto.
      * rewrite aRoadLoop_fold. simpl. discriminate.
  - intros H; inversion H; auto.
Qed.

(** C7. [CalculateCost] returns the error of a missing route exactly
    when the directions were decoded and have no route, or a first route
    without a leg; otherwise what it returns is computed from the first
    leg of the first route alone, whatever the other routes and legs. *)
Theorem CalculateCost_no_route_iff (env : Env) (journey : Journey) (driver : Driver)
    (numDrivers : Z) (w : World) :
  (snd (returned (CalculateCost env journey driver numDrivers) w) = Some ErrNoRoute
   <->
   exists d, directionsAre env journey d /\
             (Routes d = [] \/
              exists route routes, Routes d = route :: routes /\ Legs route = []))
  /\
  (forall d route routes leg legs,
     directionsAre env journey d ->
     Routes d = route :: routes ->
     Legs route = leg :: legs ->
     returned (CalculateCost env journey driver numDrivers) w =
       ((Value (leg_Distance leg) / f1000 * Rate driver
           * legMultiplier leg numDrivers (clock_hour env))%f64,
        (legMultiplier leg numDrivers (clock_hour env) * Rate driver)%f64,
        None)).
Proof.
  split; [|intros; eapply CalculateCost_leg; eauto].
  split.
  - unfold returned, CalculateCost, bind.
    pose proof (fetchDirections_Ok env journey w) as HOk.
    pose proof (fetchDirections_not_ErrNoRoute env journey w) as HErr.
    destruct (fetchDirections env journey w) as [[d|e] w1]; simpl in *.
    + specialize (HOk d eq_refl). intros H. exists d. split; [exact HOk|].
      destruct (Routes d) as [|route routes]; [left; reflexivity|].
      right. exists route, routes. split; [reflexivity|].
      destruct (Legs route) as [|leg legs]; [reflexivity|].
      rewrite aRoadLoop_fold in H. simpl in H. discriminate.
    + intros H. inversion H. exfalso. apply (HErr e eq_refl). assumption.
  - intros (d & Hd & Hroutes).
    unfold returned, CalculateCost, bind.
    rewrite (fetchDirections_decoded env journey d w Hd).
    destruct Hroutes as [->|(route & routes & -> & ->)]; reflexivity.
Qed.

(** ** RiderRequest *)

Section Handler.

(** [FindBestDriver] sends nothing to the directions service. *)
Lemma FindBestDriver_sent env w :
  filter isDirectionsRequest (sent (left_by (FindBestDriver env) w))
    = filter isDirectionsRequest (sent w) /\
  status (left_by (FindBestDriver env) w) = status w /\
  written (left_by (FindBestDriver env) w) = written w.
Proof.
  unfold left_by, FindBestDriver, bind, client_Do, ret.
  destruct (drivers_NewRequest env); [simpl; auto|].
  destruct (drivers_Do env); [simpl; auto|].
  destruct (drivers_Decode env) as [drivers|e]; [|simpl; auto].
  destruct (fold_left lowestStep drivers (F64.inf, zeroDriver)); simpl; auto.
Qed.

(** [CalculateCost] writes nothing to the caller. *)
Lemma CalculateCost_written env journey driver numDrivers w :
  status (left_by (CalculateCost env journey driver numDrivers) w) = status w /\
  written (left_by (CalculateCost env journey driver numDrivers) w) = written w.
Proof.
  unfold left_by, CalculateCost, fetchDirections, bind, client_Do, log_Print, ret.
  destruct (journey_Marshal env journey); [simpl; auto|].
  destruct (directions_NewRequest env journey); [simpl; auto|].
  destruct (directions_Do env journey); [simpl; auto|].
  destruct (directions_Decode env journey) as [d|e]; [|simpl; auto].
  simpl. destruct (Routes d) as [|route routes]; [simpl; auto|].
  destruct (Legs route) as [|leg legs]; [simpl; auto|].
  rewrite aRoadLoop_fold. simpl; auto.
Qed.

End Handler.

(** C8. When [FindBestDriver] returns an error, [RiderRequest] does
    nothing more than answer with status 500 and log the error: it does
    not call [CalculateCost], and no request goes to the directions
    service. *)
Theorem RiderRequest_directory_failure (env : Env) (journey : Journey)
    (err : error) (w : World) :
  request_Decode env = Ok journey ->
  snd (returned (FindBestDriver env) w) = Some err ->
  left_by (RiderRequest env) w
    = left_by (FindBestDriver env ;;
               w_WriteHeader StatusInternalServerError ;;
               log_Print (LogError err)) w /\
  (status w = None -> written w = [] ->
   reply (left_by (RiderRequest env) w) = (Some StatusInternalServerError, [])) /\
  filter isDirectionsRequest (sent (left_by (RiderRequest env) w))
    = filter isDirectionsRequest (sent w).
Proof.
  intros Hj Herr.
  destruct (FindBestDriver_sent env w) as (Hsent & Hstatus & Hwritten).
  unfold returned, left_by in *. unfold RiderRequest, bind. rewrite Hj.
  destruct (FindBestDriver env w) as [[[drv num] err1] w1].
  simpl in Herr, Hsent, Hstatus, Hwritten. subst err1. simpl.
  split; [reflexivity|]. split; [|exact Hsent].
  intros Hs Hw. unfold reply. simpl. rewrite Hstatus, Hwritten, Hs, Hw.
  reflexivity.
Qed.

(** C9. With a decoded roster, [RiderRequest] gives the answer
    "No drivers available at this time." exactly when the driver that
    [FindBestDriver] selected has the empty name: it then answers with
    that text alone, without a quote and without asking for directions.
    That is so for every roster, empty or not, each of whose entries of
    lowest rate has the empty name. *)
Theorem RiderRequest_no_driver_by_name (env : Env) (journey : Journey)
    (drivers : list (string * Driver)) :
  request_Decode env = Ok journey ->
  rosterIs env drivers ->
  let drv := fst (fst (returned (FindBestDriver env) emptyWorld)) in
  let w' := left_by (RiderRequest env) emptyWorld in
  (Name drv = "" ->
     reply w' = (Some StatusOK, [Text NoDriversMessage]) /\
     filter isDirectionsRequest (sent w') = []) /\
  (Name drv <> "" -> ~ In (Text NoDriversMessage) (written w')) /\
  (decodedRoster drivers = true ->
   (forall name d, In (name, d) drivers ->
      (forall name' d', In (name', d') drivers -> (Rate d <=? Rate d')%f64 = true) ->
      Name d = "") ->
   Name drv = "").
Proof.
  intros Hj Hroster drv w'.
  destruct (FindBestDriver_decoded env drivers emptyWorld Hroster) as [Hret Hleft].
  assert (Hdrv : drv = snd (fold_left lowestStep drivers (F64.inf, zeroDriver))).
  { unfold drv. rewrite Hret. reflexivity. }
  split; [|split].
  - intros Hname. rewrite Hdrv in Hname. unfold w'.
    rewrite (RiderRequest_no_name env journey drivers emptyWorld Hj Hroster Hname).
    split; reflexivity.
  - intros Hname. rewrite Hdrv in Hname. unfold w', left_by.
    unfold returned, left_by in Hret, Hleft.
    unfold RiderRequest, bind. rewrite Hj.
    destruct (FindBestDriver env emptyWorld) as [[[drv1 num] err1] w1].
    simpl in Hret, Hleft. inversion Hret; subst drv1 num err1. subst w1.
    apply String.eqb_neq in Hname. rewrite Hname. cbn [negb]. cbv beta iota.
    match goal with
    | |- context [CalculateCost ?e ?j ?d ?n ?w0] =>
        destruct (CalculateCost_written e j d n w0) as [_ Hw];
        unfold left_by in Hw;
        destruct (CalculateCost e j d n w0) as [[[cst final] err] w2]
    end.
    simpl in Hw.
    destruct err as [e|]; [simpl; rewrite Hw; intros []|].
    destruct (json_Marshal (mkResponse final cst)) as [enc|e] eqn:Hm.
    + unfold json_Marshal in Hm.
      destruct (F64.is_finite _ && F64.is_finite _); inversion Hm.
      simpl. rewrite Hw. intros [H|[]]. discriminate.
    + simpl. rewrite Hw. intros [].
  - intros Hdec Hmin. rewrite Hdrv.
    pose proof (lowestLoop_inv drivers [] (F64.inf, zeroDriver) Hdec
                  (conj eq_refl eq_refl)) as Hinv.
    rewrite app_nil_l in Hinv.
    destruct (fold_left lowestStep drivers (F64.inf, zeroDriver))
      as [lowest driver].
    destruct drivers as [|entry drivers]; simpl in Hinv.
    + destruct Hinv as [_ ->]. reflexivity.
    + destruct Hinv as (Hrate & _ & Hin & Hle). simpl snd.
      change (In driver (map snd (entry :: drivers))) in Hin.
      apply in_map_iff in Hin as ([name d] & Hd & Hin). simpl in Hd. subst d.
      apply (Hmin name driver Hin).
      intros name' d' Hd'. rewrite Hrate. apply (Hle (name', d')).
      exact Hd'.
Qed.

(** ** The pattern of the A roads *)

Module ARoadPattern.
Import Regexp RegexpFacts.

Lemma digit_inv u :
  matches (Group Digit) u -> exists c, u = [c] /\ is_digit c = true.
Proof.
  intros H. inversion H as [| | | | | | | | | |? ? H']; subst.
  inversion H'; subst. eauto.
Qed.

Lemma star_digits_forallb r v :
  matches r v -> r = Star (Group Digit) -> forallb is_digit v = true.
Proof.
  induction 1; intros E; try discriminate; [reflexivity|].
  inversion E; subst.
  apply digit_inv in H as (c & -> & Hc).
  simpl. rewrite Hc. auto.
Qed.

Lemma forallb_star_digits v :
  forallb is_digit v = true -> matches (Star (Group Digit)) v.
Proof.
  induction v as [|c v IH]; simpl; intros H; [constructor|].
  apply andb_prop in H as [Hc Hv].
  change (c :: v) with ([c] ++ v).
  constructor; [do 2 constructor; exact Hc | auto].
Qed.

(** The strings the pattern matches: an A, then one or more digits. *)
Lemma aRoad_language u :
  matches aRoadPattern u <->
  exists digits,
    u = "A"%char :: digits /\ digits <> [] /\ forallb is_digit digits = true.
Proof.
  unfold aRoadPattern. split.
  - intros H. apply seq_inv in H as (u1 & u2 & -> & H1 & H2).
    inversion H1; subst.
    apply plus_inv in H2 as (a & b & -> & Ha & Hb).
    apply digit_inv in Ha as (c & -> & Hc).
    exists ([c] ++ b). split; [reflexivity|]. split; [discriminate|].
    simpl. rewrite Hc. simpl. eapply star_digits_forallb; eauto.
  - intros (digits & -> & Hne & Hd).
    destruct digits as [|c b]; [congruence|].
    simpl in Hd. apply andb_prop in Hd as [Hc Hb].
    change ("A"%char :: c :: b) with (["A"%char] ++ ([c] ++ b)).
    constructor; [constructor|].
    constructor; [do 2 constructor; exact Hc | apply forallb_star_digits, Hb].
Qed.

(** The matcher says yes on the texts that name an A road. *)
Lemma search_namesARoad text :
  search aRoadPattern text = true <-> namesARoad text.
Proof.
  rewrite search_spec. unfold namesARoad. split.
  - intros (pre & u & post & -> & H).
    apply aRoad_language in H as (digits & -> & Hne & Hd).
    exists pre, digits, post. auto.
  - intros (pre & digits & post & -> & Hne & Hd).
    exists pre, ("A"%char :: digits), post. split; [reflexivity|].
    apply aRoad_language. exists digits. auto.
Qed.

End ARoadPattern.

(** ** The multiplier *)

Section Multiplier.

Lemma applyRules_values road scarcity offPeak :
  In (applyRules road scarcity offPeak) [f1; f2; f4; f8].
Proof.
  destruct road, scarcity, offPeak; vm_compute; auto 6.
Qed.

(** Comparing with a zero does not look at its sign. *)
Lemma ltb_zero_l s a : (S754_zero s <? a)%f64 = (f0 <? a)%f64.
Proof. destruct a; reflexivity. Qed.

Lemma roadRule_zero_distance s a : roadRule a (S754_zero s) = (f0 <? a)%f64.
Proof.
  unfold roadRule, F64.gtb. change (SFltb ?x ?y) with (x <? y)%f64.
  change (S754_zero s / f2)%f64 with (S754_zero (xorb s false)).
  apply ltb_zero_l.
Qed.

(** A zero distance costs zero, whatever the finite rate and the
    multiplier. *)
Lemma zero_distance_cost s rate m :
  F64.is_finite rate = true ->
  In m [f1; f2; f4; f8] ->
  (S754_zero s / f1000 * rate * m =? f0)%f64 = true.
Proof.
  intros Hr Hm.
  change (S754_zero s / f1000)%f64 with (S754_zero (xorb s false)).
  destruct rate as [sr|sr| |sr mr er]; try discriminate;
    destruct Hm as [<-|[<-|[<-|[<-|[]]]]]; reflexivity.
Qed.

End Multiplier.

(** C3. The multiplier of [CalculateCost] is always one of 1, 2, 4 and
    8, each of which occurs, and making one of the three conditions
    (road type, scarcity, off-peak hour) true while the other two stay
    as they are never lowers it. *)
Theorem multiplier_values_and_monotone :
  (forall leg numDrivers hour,
     In (legMultiplier leg numDrivers hour) [f1; f2; f4; f8]) /\
  (forall road scarcity offPeak,
     In (applyRules road scarcity offPeak) [f1; f2; f4; f8]) /\
  (applyRules false false false = f1 /\ applyRules true false false = f2 /\
   applyRules true true false = f4 /\ applyRules true true true = f8) /\
  (forall scarcity offPeak,
     (applyRules false scarcity offPeak <=? applyRules true scarcity offPeak)%f64
       = true) /\
  (forall road offPeak,
     (applyRules road false offPeak <=? applyRules road true offPeak)%f64 = true) /\
  (forall road scarcity,
     (applyRules road scarcity false <=? applyRules road scarcity true)%f64 = true).
Proof.
  split; [intros; apply applyRules_values|].
  split; [apply applyRules_values|].
  split; [repeat split; reflexivity|].
  split; [|split].
  - intros [] []; reflexivity.
  - intros [] []; reflexivity.
  - intros [] []; reflexivity.
Qed.

(** ** The total of the A roads *)

Lemma aRoadStep_names step t :
  namesARoad (instructionBytes step) ->
  aRoadStep t step = (t + Value (step_Distance step))%f64.
Proof.
  intros H. apply ARoadPattern.search_namesARoad in H.
  unfold aRoadStep, Regexp.Match. simpl fst. rewrite H. reflexivity.
Qed.

Lemma aRoadStep_names_not step t :
  ~ namesARoad (instructionBytes step) -> aRoadStep t step = t.
Proof.
  intros H. unfold aRoadStep, Regexp.Match. simpl fst.
  destruct (Regexp.search aRoadPattern (instructionBytes step)) eqn:E;
    [|reflexivity].
  exfalso. apply H, ARoadPattern.search_namesARoad, E.
Qed.

(** The loop computes the total, and nothing else is the total. *)
Lemma aRoadSum_fold steps : forall t,
  aRoadSum steps t (fold_left aRoadStep steps t).
Proof.
  induction steps as [|step steps IH]; intros t; simpl; [constructor|].
  destruct (Regexp.search aRoadPattern (instructionBytes step)) eqn:E.
  - assert (H : namesARoad (instructionBytes step))
      by (apply ARoadPattern.search_namesARoad, E).
    apply sum_add; [exact H|]. rewrite <- (aRoadStep_names step t H). apply IH.
  - assert (H : ~ namesARoad (instructionBytes step)).
    { intros H. apply ARoadPattern.search_namesARoad in H. congruence. }
    apply sum_skip; [exact H|].
    rewrite <- (aRoadStep_names_not step t H) at 1. apply IH.
Qed.

Lemma aRoadSum_functional steps t r :
  aRoadSum steps t r -> fold_left aRoadStep steps t = r.
Proof.
  induction 1 as [t|step steps t r Hn _ IH|step steps t r Hn _ IH]; simpl.
  - reflexivity.
  - rewrite (aRoadStep_names step t Hn). exact IH.
  - rewrite (aRoadStep_names_not step t Hn). exact IH.
Qed.

(** C4, as the code has it.  Each rule doubles the multiplier past a
    strict threshold.  The road rule compares the total of the A roads
    with the distance of the leg divided by 2, as float64 rounds that
    half: it is off when the total is that half, and on exactly when the
    total is more (5000 m of 10000 m: off; 5000.1 m: on); the scarcity
    rule is on below 5 drivers (5: off, 4: on); the off-peak rule is on
    after 22 h and before 6 h (22: off, 23: on, 6: off, 5: on).  A rule
    that is on doubles the multiplier, a rule that is off leaves it; and
    the final rate that [CalculateCost] returns for a first leg is the
    rate of the driver times the multiplier so made, the total being the
    one of the steps of the leg that name an A road. *)
Theorem rules_strict_thresholds :
  (forall distance, roadRule (distance / f2)%f64 distance = false) /\
  (forall aRoadTotal distance,
     roadRule aRoadTotal distance = true <->
     (distance / f2 <? aRoadTotal)%f64 = true) /\
  roadRule (F64.of_Z 5000) (F64.of_Z 10000) = false /\
  roadRule (F64.of_Z 50001 / F64.of_Z 10)%f64 (F64.of_Z 10000) = true /\
  (forall numDrivers, scarcityRule numDrivers = true <-> numDrivers < 5) /\
  scarcityRule 5 = false /\ scarcityRule 4 = true /\
  (forall hour, offPeakRule hour = true <-> hour > 22 \/ hour < 6) /\
  offPeakRule 22 = false /\ offPeakRule 23 = true /\
  offPeakRule 6 = false /\ offPeakRule 5 = true /\
  (forall scarcity offPeak,
     applyRules true scarcity offPeak
       = (f2 * applyRules false scarcity offPeak)%f64) /\
  (forall road offPeak,
     applyRules road true offPeak = (f2 * applyRules road false offPeak)%f64) /\
  (forall road scarcity,
     applyRules road scarcity true = (f2 * applyRules road scarcity false)%f64) /\
  (forall leg hour,
     legMultiplier leg 4 hour = (f2 * legMultiplier leg 5 hour)%f64) /\
  (forall leg numDrivers,
     legMultiplier leg numDrivers 23 = (f2 * legMultiplier leg numDrivers 22)%f64 /\
     legMultiplier leg numDrivers 5 = (f2 * legMultiplier leg numDrivers 6)%f64) /\
  (forall env journey driver numDrivers w d route routes leg legs aRoadTotal,
     directionsAre env journey d ->
     Routes d = route :: routes ->
     Legs route = leg :: legs ->
     aRoadSum (Steps leg) f0 aRoadTotal ->
     let others :=
       applyRules false (scarcityRule numDrivers) (offPeakRule (clock_hour env)) in
     snd (fst (returned (CalculateCost env journey driver numDrivers) w))
       = ((if (Value (leg_Distance leg) / f2 <? aRoadTotal)%f64
           then (f2 * others)%f64 else others) * Rate driver)%f64).
Proof.
  assert (Hs : forall road offPeak,
     applyRules road true offPeak = (f2 * applyRules road false offPeak)%f64)
    by (intros [] []; reflexivity).
  assert (Ho : forall road scarcity,
     applyRules road scarcity true = (f2 * applyRules road scarcity false)%f64)
    by (intros [] []; reflexivity).
  split; [intros; apply ltb_irrefl|].
  split; [intros; reflexivity|].
  split; [reflexivity|]. split; [reflexivity|].
  split; [intros; unfold scarcityRule; apply Z.ltb_lt|].
  split; [reflexivity|]. split; [reflexivity|].
  split.
  { intros hour. unfold offPeakRule.
    rewrite orb_true_iff, Z.gtb_lt, Z.ltb_lt. lia. }
  repeat (split; [reflexivity|]).
  split; [intros [] []; reflexivity|].
  split; [exact Hs|]. split; [exact Ho|].
  split; [intros; apply Hs|].
  split; [intros; split; apply Ho|].
  intros env journey driver numDrivers w d route routes leg legs aRoadTotal
         Hd Hr Hl Hsum others.
  rewrite (CalculateCost_leg env journey driver numDrivers w d route routes
             leg legs Hd Hr Hl).
  cbn [fst snd]. unfold legMultiplier, others.
  rewrite (aRoadSum_functional _ _ _ Hsum).
  unfold roadRule, F64.gtb. change (SFltb ?x ?y) with (x <? y)%f64.
  destruct (Value (leg_Distance leg) / f2 <? aRoadTotal)%f64;
    [|reflexivity].
  destruct (scarcityRule numDrivers), (offPeakRule (clock_hour env));
    reflexivity.
Qed.

(** C4 fails as stated: for the leg of [3 * 2^-1074] m whose one step,
    of [2 * 2^-1074] m, is on the A1, the fraction on A roads is two
    thirds, more than 0.5; but half of the distance of the leg rounds to
    [2 * 2^-1074], which the total does not exceed: the road rule is
    off, and with 10 drivers at 14 h the final rate is the rate of the
    driver. *)
Lemma fraction_above_half_rule_off :
  let distance := Value (leg_Distance tinyLeg) in
  let aRoadTotal := F64.of_scaled 2 (-1074) in
  distance = F64.of_scaled 3 (-1074) /\
  F64.valid distance = true /\
  F64.valid aRoadTotal = true /\
  aRoadLoop (Steps tinyLeg) f0 = Ok aRoadTotal /\
  (f_half <? majorRoadFraction aRoadTotal distance)%f64 = true /\
  (distance / f2)%f64 = aRoadTotal /\
  roadRule aRoadTotal distance = false /\
  legMultiplier tinyLeg 10 14 = f1 /\
  snd (fst (returned (CalculateCost tinyLegEnv sampleJourney
                        (mkDriver "bob" (F64.of_Z 7)) 10) emptyWorld))
    = F64.of_Z 7.
Proof. vm_compute. repeat split; reflexivity. Qed.


(** C5, as the code has it.  When the distance of the first leg is 0
    (of either sign) and the rate of the driver is finite,
    [CalculateCost] returns no error and a cost equal to 0; no division
    has the distance as divisor; and the road rule is on exactly when
    the distances of the steps on A roads add up to more than 0. *)
Theorem zero_distance_cost_zero (env : Env) (journey : Journey) (driver : Driver)
    (numDrivers : Z) (w : World) (d : Directions) (route : Route)
    (routes : list Route) (leg : Leg) (legs : list Leg) (s : bool) :
  directionsAre env journey d ->
  Routes d = route :: routes ->
  Legs route = leg :: legs ->
  Value (leg_Distance leg) = S754_zero s ->
  F64.is_finite (Rate driver) = true ->
  exists cost final,
    returned (CalculateCost env journey driver numDrivers) w = (cost, final, None) /\
    (cost =? f0)%f64 = true /\
    final = (legMultiplier leg numDrivers (clock_hour env) * Rate driver)%f64 /\
    roadRule (fold_left aRoadStep (Steps leg) f0) (Value (leg_Distance leg))
      = (f0 <? fold_left aRoadStep (Steps leg) f0)%f64.
Proof.
  intros Hd Hr Hl Hz Hfin.
  do 2 eexists. split; [eapply CalculateCost_leg; eauto|].
  rewrite Hz. split; [|split; [reflexivity|apply roadRule_zero_distance]].
  apply zero_distance_cost; [exact Hfin|].
  apply applyRules_values.
Qed.

(** C5 fails as stated: the leg [zeroLeg] has distance 0 and one step of
    10 m on the A1; the road rule is on, and with 10 drivers at 14 h the
    final rate is twice the rate of the driver. *)
Lemma zero_distance_road_rule_fires :
  Value (leg_Distance zeroLeg) = f0 /\
  roadRule (fold_left aRoadStep (Steps zeroLeg) f0)
           (Value (leg_Distance zeroLeg)) = true /\
  returned
    (CalculateCost zeroLegEnv sampleJourney (mkDriver "bob" (F64.of_Z 7)) 10)
    emptyWorld
    = (f0, F64.of_Z 14, None).
Proof. repeat split; vm_compute; reflexivity. Qed.

(** C2, as the code has it.  With a first leg in the first route,
    [CalculateCost] returns the final rate [multiplier * rate] and the
    cost [distance / 1000 * rate * multiplier], the products being
    taken from left to right, each rounded to float64.  In the worked
    example (rates 10, 7 and 12, 10000 m of which 6000 m on an A road,
    14 h) the multiplier is 4, the final rate 28 and the cost 280, which
    is [10000 / 1000 * 28], and that is what [RiderRequest] answers. *)
Theorem CalculateCost_cost_and_rate :
  (forall env journey driver numDrivers w d route routes leg legs,
     directionsAre env journey d ->
     Routes d = route :: routes ->
     Legs route = leg :: legs ->
     let multiplier := legMultiplier leg numDrivers (clock_hour env) in
     returned (CalculateCost env journey driver numDrivers) w
       = ((Value (leg_Distance leg) / f1000 * Rate driver * multiplier)%f64,
          (multiplier * Rate driver)%f64, None)) /\
  (returned (FindBestDriver sampleEnv) emptyWorld
     = (mkDriver "bob" (F64.of_Z 7), 3, None) /\
   Value (leg_Distance sampleLeg) = F64.of_Z 10000 /\
   fold_left aRoadStep (Steps sampleLeg) f0 = F64.of_Z 6000 /\
   legMultiplier sampleLeg 3 14 = f4 /\
   returned (CalculateCost sampleEnv sampleJourney (mkDriver "bob" (F64.of_Z 7)) 3)
            emptyWorld
     = (F64.of_Z 280, F64.of_Z 28, None) /\
   (F64.of_Z 10000 / f1000 * F64.of_Z 28)%f64 = F64.of_Z 280 /\
   reply (left_by (RiderRequest sampleEnv) emptyWorld)
     = (Some StatusOK, [ResponseJSON (mkResponse (F64.of_Z 28) (F64.of_Z 280))])).
Proof.
  split; [intros; eapply CalculateCost_leg; eauto|].
  repeat split; vm_compute; reflexivity.
Qed.

(** C2 fails as stated, where a product overflows and where one is
    subnormal.  For the driver of rate 2^1023 and the leg of 500 m, with
    one driver at 14 h, the multiplier is 2: the cost is
    [0.5 * 2^1023 * 2 = 2^1023], the final rate [2 * 2^1023] is
    infinite, and so is [500 / 1000] times it.  For the driver of rate
    2^-1074 and the leg of 1500 m the multiplier is 2 again:
    [1.5 * 2^-1074] rounds to [2 * 2^-1074], so that the cost is
    [4 * 2^-1074], while the final rate is [2 * 2^-1074] and
    [1500 / 1000] times it is [3 * 2^-1074]; [RiderRequest] answers with
    that cost and that rate. *)
Lemma cost_not_distance_times_final_rate :
  (F64.valid (Rate dearDriver) = true /\
   F64.valid (Value (leg_Distance shortLeg)) = true /\
   legMultiplier shortLeg 1 14 = f2 /\
   returned (CalculateCost dearEnv sampleJourney dearDriver 1) emptyWorld
     = (F64.of_scaled 1 1023, F64.inf, None) /\
   (Value (leg_Distance shortLeg) / f1000 * F64.inf)%f64 = F64.inf /\
   (F64.of_scaled 1 1023 =? F64.inf)%f64 = false) /\
  (F64.valid (Rate cheapDriver) = true /\
   F64.valid (Value (leg_Distance midLeg)) = true /\
   legMultiplier midLeg 1 14 = f2 /\
   returned (CalculateCost cheapEnv sampleJourney cheapDriver 1) emptyWorld
     = (F64.of_scaled 4 (-1074), F64.of_scaled 2 (-1074), None) /\
   (Value (leg_Distance midLeg) / f1000 * F64.of_scaled 2 (-1074))%f64
     = F64.of_scaled 3 (-1074) /\
   (F64.of_scaled 4 (-1074) =? F64.of_scaled 3 (-1074))%f64 = false /\
   reply (left_by (RiderRequest cheapEnv) emptyWorld)
     = (Some StatusOK,
        [ResponseJSON (mkResponse (F64.of_scaled 2 (-1074))
                                  (F64.of_scaled 4 (-1074)))])).
Proof. vm_compute. repeat split; reflexivity. Qed.

(** C6, as the code has it.  A step adds its distance to the total of
    the A roads exactly when its instruction contains, anywhere, a
    capital A followed by one or more ASCII digits; no other letter
    counts.  The match has no error; the total starts from 0 and is the
    sum, in the order of the steps, of the distances of those steps and
    of no other; and the distance of the leg that enters the cost and
    the road rule is the one the leg itself carries, not a sum over its
    steps. *)
Theorem aRoad_total_and_leg_distance :
  (forall text,
     Regexp.Match aRoadPattern text = (true, None) <-> namesARoad text) /\
  (forall text, snd (Regexp.Match aRoadPattern text) = None) /\
  (forall aRoadTotal, aRoadLoop [] aRoadTotal = Ok aRoadTotal) /\
  (forall step steps aRoadTotal,
     namesARoad (instructionBytes step) ->
     aRoadLoop (step :: steps) aRoadTotal
       = aRoadLoop steps (aRoadTotal + Value (step_Distance step))%f64) /\
  (forall step steps aRoadTotal,
     ~ namesARoad (instructionBytes step) ->
     aRoadLoop (step :: steps) aRoadTotal = aRoadLoop steps aRoadTotal) /\
  (forall steps t r, aRoadLoop steps t = Ok r <-> aRoadSum steps t r) /\
  (forall env journey driver numDrivers w d route routes leg legs,
     directionsAre env journey d ->
     Routes d = route :: routes ->
     Legs route = leg :: legs ->
     exists aRoadTotal,
       aRoadSum (Steps leg) f0 aRoadTotal /\
       aRoadLoop (Steps leg) f0 = Ok aRoadTotal /\
       let distance := Value (leg_Distance leg) in
       let multiplier :=
         applyRules (roadRule aRoadTotal distance) (scarcityRule numDrivers)
                    (offPeakRule (clock_hour env)) in
       returned (CalculateCost env journey driver numDrivers) w
         = ((distance / f1000 * Rate driver * multiplier)%f64,
            (multiplier * Rate driver)%f64, None)).
Proof.
  assert (Hm : forall text,
            Regexp.Match aRoadPattern text = (true, None) <-> namesARoad text).
  { intros text. rewrite <- ARoadPattern.search_namesARoad.
    unfold Regexp.Match. split; [intros H; inversion H; reflexivity|].
    intros ->. reflexivity. }
  split; [exact Hm|]. split; [reflexivity|]. split; [reflexivity|].
  split; [|split; [|split]].
  - intros step steps acc H. apply Hm in H.
    rewrite aRoadLoop_cons, H. reflexivity.
  - intros step steps acc H. rewrite aRoadLoop_cons.
    destruct (Regexp.Match aRoadPattern (instructionBytes step))
      as [matched err] eqn:E.
    assert (err = None) by (unfold Regexp.Match in E; inversion E; reflexivity).
    subst err. destruct matched; [|reflexivity].
    exfalso. apply H, Hm. exact E.
  - intros steps t r. rewrite aRoadLoop_fold. split.
    + intros H. inversion H; subst. apply aRoadSum_fold.
    + intros H. rewrite (aRoadSum_functional _ _ _ H). reflexivity.
  - intros. exists (fold_left aRoadStep (Steps leg) f0).
    split; [apply aRoadSum_fold|].
    split; [apply aRoadLoop_fold|]. eapply CalculateCost_leg; eauto.
Qed.

(** C6 fails as stated: the instruction "Merge onto <b>M5</b>" holds a
    letter code followed by a digit, yet the 4000 m of the step are not
    added to the total, which stays 0; on a leg made of that step the
    road rule is off. *)
Lemma letter_code_not_counted :
  namesRoadCode (instructionBytes motorwayStep) /\
  aRoadLoop [motorwayStep] f0 = Ok f0 /\
  (f0 + Value (step_Distance motorwayStep) =? f0)%f64 = false /\
  roadRule f0 (Value (leg_Distance motorwayLeg)) = false /\
  legMultiplier motorwayLeg 10 14 = f1.
Proof.
  split.
  - exists (list_ascii_of_string "Merge onto <b>"), "M"%char, ["5"%char],
      (list_ascii_of_string "</b>").
    split; [reflexivity|]. split; [reflexivity|].
    split; [discriminate | reflexivity].
  - repeat split; vm_compute; reflexivity.
Qed.

(** ** The theorems at sample requests *)

Lemma sampleEnv_roster : rosterIs sampleEnv sampleRoster.
Proof. repeat split. Defined.

Lemma sampleEnv_directions : directionsAre sampleEnv sampleJourney sampleDirections.
Proof. repeat split. Defined.

Lemma FindBestDriver_lowest_rate_witness :
  rosterIs sampleEnv sampleRoster /\
  decodedRoster sampleRoster = true /\
  exists driver,
    returned (FindBestDriver sampleEnv) emptyWorld
      = (driver, Z.of_nat (List.length sampleRoster), None) /\
    (forall name d, In (name, d) sampleRoster -> (Rate driver <=? Rate d)%f64 = true) /\
    (sampleRoster <> [] -> In driver (map snd sampleRoster)) /\
    (sampleRoster = [] ->
       driver = zeroDriver /\
       forall journey, request_Decode sampleEnv = Ok journey ->
         reply (left_by (RiderRequest sampleEnv) emptyWorld)
           = (Some StatusOK, [Text NoDriversMessage])).
Proof.
  split; [exact sampleEnv_roster|]. split; [reflexivity|].
  apply (FindBestDriver_lowest_rate sampleEnv sampleRoster emptyWorld
           sampleEnv_roster eq_refl).
Defined.

Lemma CalculateCost_cost_and_rate_witness :
  directionsAre sampleEnv sampleJourney sampleDirections /\
  returned (CalculateCost sampleEnv sampleJourney (mkDriver "bob" (F64.of_Z 7)) 3)
           emptyWorld
    = ((Value (leg_Distance sampleLeg) / f1000 * F64.of_Z 7
          * legMultiplier sampleLeg 3 14)%f64,
       (legMultiplier sampleLeg 3 14 * F64.of_Z 7)%f64, None).
Proof.
  split; [exact sampleEnv_directions|].
  apply (proj1 CalculateCost_cost_and_rate sampleEnv sampleJourney
           (mkDriver "bob" (F64.of_Z 7)) 3 emptyWorld sampleDirections
           (mkRoute [sampleLeg]) [] sampleLeg []
           sampleEnv_directions eq_refl eq_refl).
Defined.

Lemma zero_distance_cost_zero_witness :
  directionsAre zeroLegEnv sampleJourney (mkDirections [mkRoute [zeroLeg]]) /\
  Value (leg_Distance zeroLeg) = S754_zero false /\
  F64.is_finite (F64.of_Z 7) = true /\
  exists cost final,
    returned (CalculateCost zeroLegEnv sampleJourney (mkDriver "bob" (F64.of_Z 7)) 10)
             emptyWorld = (cost, final, None) /\
    (cost =? f0)%f64 = true /\
    final = (legMultiplier zeroLeg 10 14 * F64.of_Z 7)%f64 /\
    roadRule (fold_left aRoadStep (Steps zeroLeg) f0) (Value (leg_Distance zeroLeg))
      = (f0 <? fold_left aRoadStep (Steps zeroLeg) f0)%f64.
Proof.
  split; [repeat split|]. split; [reflexivity|]. split; [reflexivity|].
  apply (zero_distance_cost_zero zeroLegEnv sampleJourney
           (mkDriver "bob" (F64.of_Z 7)) 10 emptyWorld
           (mkDirections [mkRoute [zeroLeg]]) (mkRoute [zeroLeg]) [] zeroLeg []
           false (conj eq_refl (conj eq_refl (conj eq_refl eq_refl)))
           eq_refl eq_refl eq_refl eq_refl).
Defined.

Lemma aRoad_total_and_leg_distance_witness :
  namesARoad
    (instructionBytes (mkStep (mkDistance (F64.of_Z 6000)) "Merge onto <b>A38</b>")) /\
  aRoadLoop [mkStep (mkDistance (F64.of_Z 6000)) "Merge onto <b>A38</b>"] f0
    = aRoadLoop [] (f0 + F64.of_Z 6000)%f64 /\
  (aRoadLoop (Steps sampleLeg) f0 = Ok (F64.of_Z 6000) <->
   aRoadSum (Steps sampleLeg) f0 (F64.of_Z 6000)).
Proof.
  assert (H : namesARoad (instructionBytes
                (mkStep (mkDistance (F64.of_Z 6000)) "Merge onto <b>A38</b>"))).
  { apply (proj1 aRoad_total_and_leg_distance). reflexivity. }
  split; [exact H|]. split.
  - apply (proj1 (proj2 (proj2 (proj2 aRoad_total_and_leg_distance)))
             (mkStep (mkDistance (F64.of_Z 6000)) "Merge onto <b>A38</b>") [] f0 H).
  - apply (proj1 (proj2 (proj2 (proj2 (proj2 (proj2
             aRoad_total_and_leg_distance)))))).
Defined.

Lemma tinyLeg_total :
  aRoadSum (Steps tinyLeg) f0 (F64.of_scaled 2 (-1074)).
Proof.
  apply sum_add; [|apply sum_nil].
  apply ARoadPattern.search_namesARoad. reflexivity.
Defined.

Lemma rules_strict_thresholds_witness :
  directionsAre tinyLegEnv sampleJourney (mkDirections [mkRoute [tinyLeg]]) /\
  aRoadSum (Steps tinyLeg) f0 (F64.of_scaled 2 (-1074)) /\
  snd (fst (returned (CalculateCost tinyLegEnv sampleJourney
                        (mkDriver "bob" (F64.of_Z 7)) 10) emptyWorld))
    = ((if (Value (leg_Distance tinyLeg) / f2 <? F64.of_scaled 2 (-1074))%f64
        then (f2 * applyRules false (scarcityRule 10)
                              (offPeakRule (clock_hour tinyLegEnv)))%f64
        else applyRules false (scarcityRule 10)
                        (offPeakRule (clock_hour tinyLegEnv)))
       * F64.of_Z 7)%f64.
Proof.
  split; [repeat split|]. split; [exact tinyLeg_total|].
  pose proof rules_strict_thresholds as H. do 17 apply proj2 in H.
  apply (H tinyLegEnv sampleJourney (mkDriver "bob" (F64.of_Z 7)) 10 emptyWorld
           (mkDirections [mkRoute [tinyLeg]]) (mkRoute [tinyLeg]) [] tinyLeg []
           (F64.of_scaled 2 (-1074))
           (conj eq_refl (conj eq_refl (conj eq_refl eq_refl)))
           eq_refl eq_refl tinyLeg_total).
Defined.

Lemma CalculateCost_no_route_iff_witness :
  directionsAre noRouteEnv sampleJourney (mkDirections []) /\
  snd (returned (CalculateCost noRouteEnv sampleJourney zeroDriver 3) emptyWorld)
    = Some ErrNoRoute.
Proof.
  split; [repeat split|].
  apply (proj1 (CalculateCost_no_route_iff noRouteEnv sampleJourney zeroDriver 3
                  emptyWorld)).
  exists (mkDirections []). split; [repeat split | left; reflexivity].
Defined.

Lemma RiderRequest_directory_failure_witness :
  request_Decode downEnv = Ok sampleJourney /\
  snd (returned (FindBestDriver downEnv) emptyWorld)
    = Some "Error: HTTP request sending gailed" /\
  reply (left_by (RiderRequest downEnv) emptyWorld)
    = (Some StatusInternalServerError, []) /\
  filter isDirectionsRequest (sent (left_by (RiderRequest downEnv) emptyWorld)) = [].
Proof.
  split; [reflexivity|]. split; [reflexivity|].
  destruct (RiderRequest_directory_failure downEnv sampleJourney
              "Error: HTTP request sending gailed" emptyWorld eq_refl eq_refl)
    as (_ & Hreply & Hsent).
  split; [exact (Hreply eq_refl eq_refl) | exact Hsent].
Defined.

Lemma RiderRequest_no_driver_by_name_witness :
  request_Decode namelessEnv = Ok sampleJourney /\
  rosterIs namelessEnv namelessRoster /\
  Name (fst (fst (returned (FindBestDriver namelessEnv) emptyWorld))) = "" /\
  reply (left_by (RiderRequest namelessEnv) emptyWorld)
    = (Some StatusOK, [Text NoDriversMessage]) /\
  filter isDirectionsRequest
    (sent (left_by (RiderRequest namelessEnv) emptyWorld)) = [].
Proof.
  split; [reflexivity|]. split; [repeat split|]. split; [reflexivity|].
  apply (proj1 (RiderRequest_no_driver_by_name namelessEnv sampleJourney
                  namelessRoster eq_refl
                  (conj eq_refl (conj eq_refl eq_refl)))).
  reflexivity.
Defined.

Lemma CalculateCost_error_zero_witness :
  returned (CalculateCost noRouteEnv sampleJourney zeroDriver 3) emptyWorld
    = (f0, f0, Some ErrNoRoute) /\
  f0 = f0 /\ f0 = f0.
Proof.
  split; [reflexivity|].
  apply (CalculateCost_error_zero noRouteEnv sampleJourney zeroDriver 3 emptyWorld
           f0 f0 ErrNoRoute eq_refl).
Defined.

(** * More properties of the rider service *)

(** ** The driver selected among equal rates *)

(** [x < y] and [y <= z] give [x < z]. *)
Lemma ltb_leb_ltb (x y z : float64) :
  (x <? y)%f64 = true -> (y <=? z)%f64 = true -> (x <? z)%f64 = true.
Proof.
  unfold F64.ltb, F64.leb, SFltb, SFleb.
  destruct x as [sx|sx| |sx mx ex], y as [sy|sy| |sy my ey],
           z as [sz|sz| |sz mz ez];
    try (simpl; discriminate);
    try (destruct sx; simpl; congruence);
    try (destruct sy; simpl; congruence);
    try (destruct sz; simpl; congruence);
    try (destruct sx, sy; simpl; congruence);
    try (destruct sx, sz; simpl; congruence);
    try (destruct sy, sz; simpl; congruence);
    try (destruct sx, sy, sz; simpl; congruence).
  all: rewrite ?SFcompare_finite.
  all: try (destruct sx; try destruct sy; try destruct sz; simpl; congruence).
  destruct sx, sy, sz; try (simpl; congruence).
  - destruct (lexcmp ey my ex mx) eqn:E1; try discriminate.
    destruct (lexcmp ez mz ey my) eqn:E2; try discriminate; intros _ _;
      apply lexcmp_Lt in E1;
      (apply lexcmp_Lt in E2 || apply lexcmp_Eq in E2);
      assert (E : lexcmp ez mz ex mx = Lt) by (apply lexcmp_Lt; lia);
      rewrite E; reflexivity.
  - destruct (lexcmp ex mx ey my) eqn:E1; try discriminate.
    destruct (lexcmp ey my ez mz) eqn:E2; try discriminate; intros _ _;
      apply lexcmp_Lt in E1;
      (apply lexcmp_Lt in E2 || apply lexcmp_Eq in E2);
      assert (E : lexcmp ex mx ez mz = Lt) by (apply lexcmp_Lt; lia);
      rewrite E; reflexivity.
Qed.

Lemma ltb_leb (x y : float64) : (x <? y)%f64 = true -> (x <=? y)%f64 = true.
Proof.
  unfold F64.ltb, F64.leb, SFltb, SFleb.
  destruct (SFcompare x y) as [[]|]; congruence.
Qed.

Lemma firstLowestStep_inv seen acc entry :
  F64.is_finite (Rate (snd entry)) = true ->
  firstLowestInv seen acc ->
  firstLowestInv (seen ++ [entry]) (lowestStep acc entry).
Proof.
  destruct acc as [lowest driver]. intros Hfin Hinv.
  unfold lowestStep. destruct seen as [|e0 seen]; simpl in Hinv.
  - destruct Hinv as [-> ->].
    rewrite (finite_ltb_inf _ Hfin). simpl.
    split; [reflexivity|]. split; [exact Hfin|].
    exists [], (fst entry), []. destruct entry; simpl.
    split; [reflexivity|]. split; intros ? [].
  - destruct Hinv as (Hrate & Hlow & pre & name & post & Hseen & Hpre & Hpost).
    change ((e0 :: seen) ++ [entry]) with (e0 :: (seen ++ [entry])).
    destruct (Rate (snd entry) <? lowest)%f64 eqn:Hlt; cbn [firstLowestInv].
    + split; [reflexivity|]. split; [exact Hfin|].
      exists (e0 :: seen), (fst entry), [].
      split; [destruct entry; reflexivity|].
      split; [|intros ? []].
      intros e He.
      assert (He' : In e (pre ++ (name, driver) :: post))
        by (rewrite <- Hseen; exact He).
      clear He. rename He' into He. apply in_app_or in He. destruct He as [He|[<-|He]].
      * eapply ltb_leb_ltb; [exact Hlt|]. apply ltb_leb, Hpre, He.
      * simpl. rewrite Hrate. eapply ltb_leb_ltb; [exact Hlt|].
        apply leb_refl, finite_not_nan, Hlow.
      * eapply ltb_leb_ltb; [exact Hlt|]. apply Hpost, He.
    + split; [exact Hrate|]. split; [exact Hlow|].
      exists pre, name, (post ++ [entry]).
      split; [change (e0 :: seen ++ [entry]) with ((e0 :: seen) ++ [entry]);
              rewrite Hseen, <- app_assoc; reflexivity|].
      split; [exact Hpre|].
      intros e He. apply in_app_or in He. destruct He as [He|[<-|[]]].
      * apply Hpost, He.
      * apply ltb_false_leb; auto using finite_not_nan.
Qed.

Lemma firstLowestLoop_inv drivers : forall seen acc,
  decodedRoster drivers = true ->
  firstLowestInv seen acc ->
  firstLowestInv (seen ++ drivers) (fold_left lowestStep drivers acc).
Proof.
  induction drivers as [|entry drivers IH]; intros seen acc Hdec Hinv.
  - rewrite app_nil_r. exact Hinv.
  - simpl in Hdec. apply andb_prop in Hdec. destruct Hdec as [Hfin Hdec].
    simpl fold_left.
    replace (seen ++ entry :: drivers) with ((seen ++ [entry]) ++ drivers)
      by (rewrite <- app_assoc; reflexivity).
    apply IH; [exact Hdec|]. apply firstLowestStep_inv; assumption.
Qed.

(** X1. Among the drivers of a decoded roster that is not empty,
    [FindBestDriver] selects the first one, in the order the loop visits
    them, whose rate is the lowest: every driver visited before has a
    greater rate, every driver visited after has no lesser one. *)
Theorem FindBestDriver_first_lowest (env : Env) (drivers : list (string * Driver))
    (w : World) :
  rosterIs env drivers ->
  decodedRoster drivers = true ->
  drivers <> [] ->
  exists pre name driver post,
    drivers = pre ++ (name, driver) :: post /\
    fst (fst (returned (FindBestDriver env) w)) = driver /\
    (forall entry, In entry pre -> (Rate driver <? Rate (snd entry))%f64 = true) /\
    (forall entry, In entry post -> (Rate driver <=? Rate (snd entry))%f64 = true).
Proof.
  intros Hroster Hdec Hne.
  destruct (FindBestDriver_decoded env drivers w Hroster) as [Hret _].
  rewrite Hret. simpl.
  pose proof (firstLowestLoop_inv drivers [] (F64.inf, zeroDriver) Hdec
                (conj eq_refl eq_refl)) as Hinv.
  rewrite app_nil_l in Hinv.
  destruct (fold_left lowestStep drivers (F64.inf, zeroDriver))
    as [lowest driver].
  destruct drivers as [|entry drivers]; [congruence|].
  cbn [firstLowestInv] in Hinv.
  destruct Hinv as (Hrate & _ & pre & name & post & Hsplit & Hpre & Hpost).
  exists pre, name, driver, post. rewrite Hrate. auto.
Qed.

(** ** What RiderRequest answers *)

(** The two ways [FindBestDriver] ends. *)
Lemma FindBestDriver_cases env w :
  (exists drivers,
     rosterIs env drivers /\
     FindBestDriver env w =
       ((snd (fold_left lowestStep drivers (F64.inf, zeroDriver)),
         Z.of_nat (List.length drivers), None),
        mkWorld (DriversRequest :: sent w) (logged w) (status w) (written w))) \/
  (exists err w1,
     FindBestDriver env w = ((zeroDriver, 1, Some err), w1) /\
     (drivers_NewRequest env <> None \/ drivers_Do env <> None \/
      exists e, drivers_Decode env = Err e) /\
     (w1 = w \/
      w1 = mkWorld (DriversRequest :: sent w) (logged w) (status w) (written w))).
Proof.
  unfold FindBestDriver, bind, client_Do, ret, rosterIs.
  destruct (drivers_NewRequest env) as [e1|].
  { right. do 2 eexists. split; [reflexivity|]. split; [left; congruence|].
    left; reflexivity. }
  destruct (drivers_Do env) as [e2|].
  { right. do 2 eexists. split; [reflexivity|].
    split; [right; left; congruence|]. right; reflexivity. }
  destruct (drivers_Decode env) as [drivers|e3].
  - left. exists drivers. split; [auto|].
    destruct (fold_left lowestStep drivers (F64.inf, zeroDriver)); reflexivity.
  - right. do 2 eexists. split; [reflexivity|].
    split; [right; right; eauto|]. right; reflexivity.
Qed.

(** The two ways [CalculateCost] ends. *)
Lemma CalculateCost_cases env journey driver numDrivers w :
  (exists d route routes leg legs,
     directionsAre env journey d /\
     Routes d = route :: routes /\
     Legs route = leg :: legs /\
     let multiplier := legMultiplier leg numDrivers (clock_hour env) in
     let distance := Value (leg_Distance leg) in
     let cost := (distance / f1000 * Rate driver * multiplier)%f64 in
     let final := (multiplier * Rate driver)%f64 in
     CalculateCost env journey driver numDrivers w =
       ((cost, final, None),
        mkWorld (DirectionsRequest journey :: sent w)
                (LogJourney (Name driver) distance (Rate driver) multiplier
                            final cost :: logged w)
                (status w) (written w))) \/
  (exists err logs sent1,
     CalculateCost env journey driver numDrivers w =
       ((f0, f0, Some err),
        mkWorld sent1 (logs ++ logged w) (status w) (written w)) /\
     (sent1 = sent w \/ sent1 = DirectionsRequest journey :: sent w) /\
     forall d, directionsAre env journey d ->
       Routes d = [] \/
       exists route routes, Routes d = route :: routes /\ Legs route = []).
Proof.
  unfold CalculateCost, fetchDirections, bind, client_Do, log_Print, ret,
    directionsAre.
  destruct (journey_Marshal env journey) as [e0|].
  { right. exists "Error: Could not create JSON from journey", [], (sent w).
    split; [destruct w; reflexivity|]. split; [auto|].
    intros d (H & _). discriminate. }
  destruct (directions_NewRequest env journey) as [e1|].
  { right. exists "Error: HTTP request creation gailed", [], (sent w).
    split; [destruct w; reflexivity|]. split; [auto|].
    intros d (_ & H & _). discriminate. }
  destruct (directions_Do env journey) as [e2|].
  { right. exists "Error: HTTP request sending gailed", [],
      (DirectionsRequest journey :: sent w).
    split; [reflexivity|]. split; [auto|].
    intros d (_ & _ & H & _). discriminate. }
  destruct (directions_Decode env journey) as [d|e3].
  2:{ right. exists "Error: Response body decoding failed", [LogError e3],
        (DirectionsRequest journey :: sent w).
      split; [reflexivity|]. split; [auto|].
      intros d (_ & _ & _ & H). discriminate. }
  simpl. destruct (Routes d) as [|route routes] eqn:Hr.
  { right. exists ErrNoRoute, [], (DirectionsRequest journey :: sent w).
    split; [reflexivity|]. split; [auto|].
    intros d' (_ & _ & _ & H). inversion H; subst d'. left. exact Hr. }
  destruct (Legs route) as [|leg legs] eqn:Hl.
  { right. exists ErrNoRoute, [], (DirectionsRequest journey :: sent w).
    split; [reflexivity|]. split; [auto|].
    intros d' (_ & _ & _ & H). inversion H; subst d'. right.
    exists route, routes. auto. }
  left. exists d, route, routes, leg, legs.
  repeat (split; [auto|]). rewrite aRoadLoop_fold. reflexivity.
Qed.

(** X2. [FindBestDriver] returns an error exactly when the request to
    the drivers service cannot be created or sent, or its answer cannot
    be decoded; it then returns the driver without a name and the
    count 1. *)
Theorem FindBestDriver_failure (env : Env) (w : World) :
  (snd (returned (FindBestDriver env) w) <> None <->
   drivers_NewRequest env <> None \/ drivers_Do env <> None \/
   exists e, drivers_Decode env = Err e) /\
  (forall err, snd (returned (FindBestDriver env) w) = Some err ->
     returned (FindBestDriver env) w = (zeroDriver, 1, Some err)).
Proof.
  unfold returned.
  destruct (FindBestDriver_cases env w)
    as [(drivers & (H1 & H2 & H3) & ->)|(err & w1 & -> & Hfail & _)]; simpl.
  - split; [|discriminate].
    split; [congruence|]. intros [H|[H|[e H]]]; congruence.
  - split; [split; [auto|discriminate]|]. intros err' H. congruence.
Qed.

(** X3. [RiderRequest] gives one of four answers: status 400 without a
    body, exactly when the body of the request does not decode, and then
    nothing is sent out; status 500 without a body; status 200 with the
    text "No drivers available at this time."; status 200 with a quote,
    whose two numbers are then finite. *)
Theorem RiderRequest_reply_cases (env : Env) :
  let w' := left_by (RiderRequest env) emptyWorld in
  (exists e, request_Decode env = Err e /\
             reply w' = (Some StatusBadRequest, []) /\ sent w' = []) \/
  (exists journey, request_Decode env = Ok journey /\
     (reply w' = (Some StatusInternalServerError, []) \/
      reply w' = (Some StatusOK, [Text NoDriversMessage]) \/
      exists r, reply w' = (Some StatusOK, [ResponseJSON r]) /\
                F64.is_finite (FinalRate r) = true /\
                F64.is_finite (Cost r) = true)).
Proof.
  intros w'. unfold w', left_by, RiderRequest, bind.
  destruct (request_Decode env) as [journey|e]; [|left; exists e; auto].
  right. exists journey. split; [reflexivity|].
  destruct (FindBestDriver_cases env emptyWorld)
    as [(drivers & _ & ->)|(err & w1 & -> & _ & [->| ->])];
    [|left; reflexivity|left; reflexivity].
  destruct (Name _ =? "")%string; cbn [negb]; cbv beta iota;
    [right; left; reflexivity|].
  match goal with
  | |- context [CalculateCost ?e ?j ?d ?n ?w0] =>
      destruct (CalculateCost_cases e j d n w0)
        as [(dd & route & routes & leg & legs & _ & _ & _ & ->)
           |(err & logs & sent1 & -> & _ & _)]
  end; [|left; reflexivity].
  unfold json_Marshal. cbn [FinalRate Cost].
  match goal with
  | |- context [F64.is_finite ?a && F64.is_finite ?b] =>
      destruct (F64.is_finite a) eqn:Hf; destruct (F64.is_finite b) eqn:Hc
  end; cbn [andb]; [|left; reflexivity..].
  right; right. eexists. split; [reflexivity|]. split; assumption.
Qed.

(** X4. [RiderRequest] sends at most two requests, at most one to each
    service: it asks the directions service only after the drivers
    service has answered, and for the journey of the request. *)
Theorem RiderRequest_requests_sent (env : Env) :
  let sent' := sent (left_by (RiderRequest env) emptyWorld) in
  sent' = [] \/
  sent' = [DriversRequest] \/
  exists journey drivers,
    request_Decode env = Ok journey /\
    rosterIs env drivers /\
    sent' = [DirectionsRequest journey; DriversRequest].
Proof.
  intros sent'. unfold sent', left_by, RiderRequest, bind.
  destruct (request_Decode env) as [journey|e]; [|left; reflexivity].
  destruct (FindBestDriver_cases env emptyWorld)
    as [(drivers & Hroster & ->)|(err & w1 & -> & _ & [->| ->])];
    [|left; reflexivity|right; left; reflexivity].
  destruct (Name _ =? "")%string; cbn [negb]; cbv beta iota;
    [right; left; reflexivity|].
  match goal with
  | |- context [CalculateCost ?e ?j ?d ?n ?w0] =>
      destruct (CalculateCost_cases e j d n w0)
        as [(dd & route & routes & leg & legs & _ & _ & _ & ->)
           |(err & logs & sent1 & -> & Hsent & _)]
  end.
  - right; right. exists journey, drivers. split; [reflexivity|].
    split; [exact Hroster|].
    unfold json_Marshal.
    destruct (F64.is_finite _ && F64.is_finite _); reflexivity.
  - destruct Hsent as [->| ->]; simpl.
    + right; left; reflexivity.
    + right; right. exists journey, drivers. auto.
Qed.

(** ** The quote *)

(** X5. [CalculateCost] returns no error exactly when the directions
    were asked for, came back, decoded, and have a first leg in a first
    route. *)
Theorem CalculateCost_succeeds_iff (env : Env) (journey : Journey)
    (driver : Driver) (numDrivers : Z) (w : World) :
  snd (returned (CalculateCost env journey driver numDrivers) w) = None <->
  exists d route routes leg legs,
    directionsAre env journey d /\
    Routes d = route :: routes /\
    Legs route = leg :: legs.
Proof.
  unfold returned.
  destruct (CalculateCost_cases env journey driver numDrivers w)
    as [(d & route & routes & leg & legs & Hd & Hr & Hl & ->)
       |(err & logs & sent1 & -> & _ & Hno)]; simpl.
  - split; [intros _|reflexivity]. exists d, route, routes, leg, legs. auto.
  - split; [discriminate|].
    intros (d & route & routes & leg & legs & Hd & Hr & Hl).
    destruct (Hno d Hd) as [H|(route' & routes' & H & H')]; [congruence|].
    rewrite Hr in H. inversion H; subst. congruence.
Qed.

(** The selected driver of a roster in which every driver has a name has
    one, unless the roster is empty. *)
Lemma selected_named drivers :
  decodedRoster drivers = true ->
  allNamed drivers = true ->
  drivers <> [] ->
  Name (snd (fold_left lowestStep drivers (F64.inf, zeroDriver))) <> "".
Proof.
  intros Hdec Hnamed Hne.
  pose proof (lowestLoop_inv drivers [] (F64.inf, zeroDriver) Hdec
                (conj eq_refl eq_refl)) as Hinv.
  rewrite app_nil_l in Hinv.
  destruct (fold_left lowestStep drivers (F64.inf, zeroDriver))
    as [lowest driver].
  destruct drivers as [|entry drivers]; [congruence|].
  cbn [lowestInv] in Hinv. destruct Hinv as (_ & _ & Hin & _).
  apply in_map_iff in Hin as (e & <- & He).
  unfold allNamed in Hnamed. rewrite forallb_forall in Hnamed.
  specialize (Hnamed e He). apply negb_true_iff in Hnamed.
  apply String.eqb_neq in Hnamed. exact Hnamed.
Qed.

(** With a roster that is not empty and in which every driver has a
    name, [RiderRequest] does not answer that no driver is available. *)
Lemma named_roster_answer (env : Env) (journey : Journey)
    (drivers : list (string * Driver)) :
  request_Decode env = Ok journey ->
  rosterIs env drivers ->
  decodedRoster drivers = true ->
  allNamed drivers = true ->
  drivers <> [] ->
  reply (left_by (RiderRequest env) emptyWorld)
    <> (Some StatusOK, [Text NoDriversMessage]).
Proof.
  intros Hj Hroster Hdec Hnamed Hne.
  pose proof (selected_named _ Hdec Hnamed Hne) as Hname.
  unfold left_by, RiderRequest, bind. rewrite Hj.
  destruct (FindBestDriver_cases env emptyWorld)
    as [(drivers' & (H1 & H2 & H3) & ->)|(err & w1 & -> & Hfail & _)].
  - destruct Hroster as (_ & _ & H3'). rewrite H3 in H3'.
    inversion H3'; subst drivers'.
    apply String.eqb_neq in Hname. rewrite Hname. cbn [negb]. cbv beta iota.
    match goal with
    | |- context [CalculateCost ?e ?j ?d ?n ?w0] =>
        destruct (CalculateCost_cases e j d n w0)
          as [(dd & route & routes & leg & legs & _ & _ & _ & ->)
             |(err & logs & sent1 & -> & _ & _)]
    end; [|discriminate].
    unfold json_Marshal.
    destruct (F64.is_finite _ && F64.is_finite _); discriminate.
  - destruct Hroster as (H1 & H2 & H3).
    destruct Hfail as [H|[H|[e H]]]; congruence.
Qed.

(** X6. When every driver of the decoded roster has a name, as the
    comment in [RiderRequest] supposes, the answer
    "No drivers available at this time." is given exactly when the
    roster is empty. *)
Theorem RiderRequest_no_drivers_iff_empty (env : Env) (journey : Journey)
    (drivers : list (string * Driver)) :
  request_Decode env = Ok journey ->
  rosterIs env drivers ->
  decodedRoster drivers = true ->
  allNamed drivers = true ->
  (reply (left_by (RiderRequest env) emptyWorld)
     = (Some StatusOK, [Text NoDriversMessage])
   <-> drivers = []).
Proof.
  intros Hj Hroster Hdec Hnamed. split.
  - intros Hreply.
    destruct drivers as [|entry drivers]; [reflexivity|]. exfalso.
    revert Hreply.
    apply (named_roster_answer env journey (entry :: drivers)
             Hj Hroster Hdec Hnamed).
    discriminate.
  - intros ->.
    rewrite (RiderRequest_no_name env journey [] emptyWorld Hj Hroster eq_refl).
    reflexivity.
Qed.

(** The driver selected in a decoded roster that is not empty is one of
    its drivers, of lowest rate. *)
Lemma selected_lowest drivers :
  decodedRoster drivers = true ->
  drivers <> [] ->
  let driver := snd (fold_left lowestStep drivers (F64.inf, zeroDriver)) in
  (exists name, In (name, driver) drivers) /\
  forall name' d', In (name', d') drivers -> (Rate driver <=? Rate d')%f64 = true.
Proof.
  intros Hdec Hne.
  pose proof (lowestLoop_inv drivers [] (F64.inf, zeroDriver) Hdec
                (conj eq_refl eq_refl)) as Hinv.
  rewrite app_nil_l in Hinv.
  destruct (fold_left lowestStep drivers (F64.inf, zeroDriver))
    as [lowest driver].
  destruct drivers as [|entry drivers]; [congruence|].
  cbn [lowestInv] in Hinv. destruct Hinv as (Hrate & _ & Hin & Hle).
  apply in_map_iff in Hin as ([name driver'] & Hd' & Hin).
  simpl in Hd'. subst driver'. simpl.
  split; [exists name; exact Hin|].
  intros name' d' H'. rewrite Hrate. apply (Hle (name', d') H').
Qed.

(** The run of [CalculateCost] on a first leg. *)
Lemma CalculateCost_leg_run env journey driver numDrivers w d route routes leg legs :
  directionsAre env journey d ->
  Routes d = route :: routes ->
  Legs route = leg :: legs ->
  let multiplier := legMultiplier leg numDrivers (clock_hour env) in
  let distance := Value (leg_Distance leg) in
  let cost := (distance / f1000 * Rate driver * multiplier)%f64 in
  let final := (multiplier * Rate driver)%f64 in
  CalculateCost env journey driver numDrivers w =
    ((cost, final, None),
     mkWorld (DirectionsRequest journey :: sent w)
             (LogJourney (Name driver) distance (Rate driver) multiplier
                         final cost :: logged w)
             (status w) (written w)).
Proof.
  intros Hd Hr Hl. unfold CalculateCost, bind.
  rewrite (fetchDirections_decoded env journey d w Hd), Hr, Hl.
  rewrite aRoadLoop_fold. reflexivity.
Qed.

(** X7. The whole of a request that goes through: the roster decodes,
    is not empty and every driver has a name, the directions have a
    first leg.  Then [RiderRequest] answers for a driver of the roster
    whose rate is the lowest: with status 200 and his final rate and
    cost for that leg, the number of drivers being the size of the
    roster, when both numbers are finite, and with status 500
    otherwise. *)
Theorem RiderRequest_quote (env : Env) (journey : Journey)
    (drivers : list (string * Driver)) (d : Directions) (route : Route)
    (routes : list Route) (leg : Leg) (legs : list Leg) :
  request_Decode env = Ok journey ->
  rosterIs env drivers ->
  decodedRoster drivers = true ->
  allNamed drivers = true ->
  drivers <> [] ->
  directionsAre env journey d ->
  Routes d = route :: routes ->
  Legs route = leg :: legs ->
  exists name driver,
    In (name, driver) drivers /\
    (forall name' d', In (name', d') drivers -> (Rate driver <=? Rate d')%f64 = true) /\
    let multiplier :=
      legMultiplier leg (Z.of_nat (List.length drivers)) (clock_hour env) in
    let final := (multiplier * Rate driver)%f64 in
    let cost := (Value (leg_Distance leg) / f1000 * Rate driver * multiplier)%f64 in
    reply (left_by (RiderRequest env) emptyWorld) =
      if F64.is_finite final && F64.is_finite cost
      then (Some StatusOK, [ResponseJSON (mkResponse final cost)])
      else (Some StatusInternalServerError, []).
Proof.
  intros Hj Hroster Hdec Hnamed Hne Hd Hr Hl.
  pose proof (selected_named _ Hdec Hnamed Hne) as Hname.
  destruct (selected_lowest _ Hdec Hne) as [[name Hin] Hle].
  exists name, (snd (fold_left lowestStep drivers (F64.inf, zeroDriver))).
  split; [exact Hin|]. split; [exact Hle|].
  destruct (FindBestDriver_decoded env drivers emptyWorld Hroster) as [Hret Hleft].
  unfold returned, left_by in Hret, Hleft.
  unfold left_by, RiderRequest, bind. rewrite Hj.
  destruct (FindBestDriver env emptyWorld) as [[[drv num] err1] w1].
  simpl in Hret, Hleft. inversion Hret; subst drv num err1. subst w1.
  apply String.eqb_neq in Hname. rewrite Hname. cbn [negb]. cbv beta iota.
  rewrite (CalculateCost_leg_run env journey _ _ _ d route routes leg legs Hd Hr Hl).
  unfold json_Marshal. cbn [FinalRate Cost].
  match goal with
  | |- context [if ?b then Ok _ else Err _] => destruct b
  end; reflexivity.
Qed.

(** ** Signs *)

Lemma binary_round_aux_nonnegative m e l :
  nonnegative (binary_round_aux F64.prec F64.emax false m e l) = true.
Proof.
  unfold binary_round_aux.
  destruct (shr_fexp F64.prec F64.emax m e l) as [mrs' e'].
  destruct (shr_fexp F64.prec F64.emax _ e' loc_Exact) as [mrs'' e''].
  destruct (shr_m mrs''); [reflexivity| |reflexivity].
  destruct (e'' <=? F64.emax - F64.prec)%Z; reflexivity.
Qed.

Lemma mul_nonnegative (x y : float64) :
  nonnegative x = true -> nonnegative y = true -> nonnegative (x * y)%f64 = true.
Proof.
  destruct x as [sx|sx| |sx mx ex], y as [sy|sy| |sy my ey];
    simpl; intros Hx Hy; try reflexivity;
    try (apply negb_true_iff in Hx; subst sx);
    try (apply negb_true_iff in Hy; subst sy);
    try reflexivity.
  apply binary_round_aux_nonnegative.
Qed.

Lemma div_nonnegative (x : float64) (my : positive) (ey : Z) :
  nonnegative x = true ->
  nonnegative (x / S754_finite false my ey)%f64 = true.
Proof.
  destruct x as [sx|sx| |sx mx ex];
    intros Hx; cbn [nonnegative] in Hx;
    try (apply negb_true_iff in Hx; subst sx);
    unfold F64.div, SFdiv; try reflexivity.
  destruct (SFdiv_core_binary F64.prec F64.emax (Z.pos mx) ex (Z.pos my) ey)
    as [[mz ez] lz].
  apply binary_round_aux_nonnegative.
Qed.

Lemma leb_zero_nonnegative (x : float64) :
  (f0 <=? x)%f64 = true -> nonnegative x = true.
Proof. destruct x as [s|[]| |[] m e]; cbv; congruence. Qed.

Lemma nonnegative_not_ltb_zero (x : float64) :
  nonnegative x = true -> (x <? f0)%f64 = false.
Proof. destruct x as [s|[]| |[] m e]; cbv; congruence. Qed.

(** X8. For a leg whose distance is not negative and a driver whose rate
    is not negative, neither the cost nor the final rate that
    [CalculateCost] returns is negative. *)
Theorem CalculateCost_not_negative (env : Env) (journey : Journey)
    (driver : Driver) (numDrivers : Z) (w : World) (d : Directions)
    (route : Route) (routes : list Route) (leg : Leg) (legs : list Leg) :
  directionsAre env journey d ->
  Routes d = route :: routes ->
  Legs route = leg :: legs ->
  (f0 <=? Value (leg_Distance leg))%f64 = true ->
  (f0 <=? Rate driver)%f64 = true ->
  exists cost final,
    returned (CalculateCost env journey driver numDrivers) w = (cost, final, None) /\
    (cost <? f0)%f64 = false /\
    (final <? f0)%f64 = false.
Proof.
  intros Hd Hr Hl Hdist Hrate.
  do 2 eexists. split; [eapply CalculateCost_leg; eauto|].
  apply leb_zero_nonnegative in Hdist, Hrate.
  assert (Hm : nonnegative (legMultiplier leg numDrivers (clock_hour env)) = true).
  { destruct (applyRules_values
                (roadRule (fold_left aRoadStep (Steps leg) f0)
                          (Value (leg_Distance leg)))
                (scarcityRule numDrivers) (offPeakRule (clock_hour env)))
      as [H|[H|[H|[H|[]]]]]; unfold legMultiplier; rewrite <- H; reflexivity. }
  split; apply nonnegative_not_ltb_zero.
  - repeat apply mul_nonnegative; auto. apply div_nonnegative; auto.
  - apply mul_nonnegative; auto.
Qed.

(** ** Steps on other roads *)

Lemma aRoadStep_other steps : forall aRoadTotal,
  forallb (fun step => negb (isARoadStep step)) steps = true ->
  fold_left aRoadStep steps aRoadTotal = aRoadTotal.
Proof.
  induction steps as [|step steps IH]; intros acc H; [reflexivity|].
  simpl in H. apply andb_prop in H as [Hs H].
  simpl. unfold aRoadStep at 2. unfold isARoadStep in Hs.
  apply negb_true_iff in Hs. rewrite Hs. apply IH, H.
Qed.

Lemma aRoadStep_filter steps : forall aRoadTotal,
  fold_left aRoadStep (filter isARoadStep steps) aRoadTotal
    = fold_left aRoadStep steps aRoadTotal.
Proof.
  induction steps as [|step steps IH]; intros acc; [reflexivity|].
  simpl. destruct (isARoadStep step) eqn:Hs.
  - simpl. apply IH.
  - rewrite IH. unfold aRoadStep at 3. unfold isARoadStep in Hs.
    rewrite Hs. reflexivity.
Qed.

(** X9. The steps whose instruction names no A road count for nothing:
    the loop of [CalculateCost] gives the same total with and without
    them.  When no step of the leg names an A road and the distance of
    the leg is not negative, the road rule is off. *)
Theorem other_steps_ignored (steps : list Step) (distance : Distance) :
  aRoadLoop steps f0 = aRoadLoop (filter isARoadStep steps) f0 /\
  ((forall step, In step steps -> ~ namesARoad (instructionBytes step)) ->
   (f0 <=? Value distance)%f64 = true ->
   aRoadLoop steps f0 = Ok f0 /\
   forall numDrivers hour,
     legMultiplier (mkLeg distance steps) numDrivers hour
       = applyRules false (scarcityRule numDrivers) (offPeakRule hour)).
Proof.
  split; [rewrite !aRoadLoop_fold, aRoadStep_filter; reflexivity|].
  intros Hno Hdist.
  assert (Hall : forallb (fun step => negb (isARoadStep step)) steps = true).
  { apply forallb_forall. intros step Hin. apply negb_true_iff.
    destruct (isARoadStep step) eqn:Hs; [|reflexivity].
    exfalso. apply (Hno step Hin).
    apply ARoadPattern.search_namesARoad. exact Hs. }
  split; [rewrite aRoadLoop_fold, aRoadStep_other; auto|].
  intros numDrivers hour. unfold legMultiplier. simpl.
  rewrite aRoadStep_other by exact Hall.
  replace (roadRule f0 (Value distance)) with false; [reflexivity|].
  symmetry. unfold roadRule, F64.gtb.
  change (SFltb ?x ?y) with (x <? y)%f64.
  apply nonnegative_not_ltb_zero, div_nonnegative.
  apply leb_zero_nonnegative, Hdist.
Qed.

(** * The drivers service *)

Module DriversFacts.
Import Drivers.

(** [Authenticate] leaves the roster and the reply as they are. *)
Lemma Authenticate_run config auth key s :
  exists urls,
    Authenticate config auth key s =
      (authResult config auth key,
       mkServer (drivers s) (status s) (written s) (logged s)
                (urls ++ authSent s)).
Proof.
  unfold Authenticate, authResult, sbind, client_Do, sret.
  destruct (auth_NewRequest auth _); [exists []; destruct s; reflexivity|].
  destruct (auth_Do auth _); [eexists [_]; reflexivity|].
  destruct (auth_ReadAll auth _); eexists [_]; reflexivity.
Qed.

(** The roster and the status after [Create]. *)
Lemma Create_run config auth r m :
  let s' := snd (Create config auth r (fresh m)) in
  match userOf config auth r, body_Decode r with
  | Some uid, Ok d =>
      if negb (Name d =? "")%string then
        match SMap.find (Name d) m with
        | None =>
            drivers s' = SMap.add (Name d) (mkDriver uid (Name d) (Rate d)) m /\
            status s' = Some StatusCreated
        | Some _ => drivers s' = m /\ status s' = Some StatusBadRequest
        end
      else drivers s' = m /\ status s' = Some StatusBadRequest
  | Some _, Err _ => drivers s' = m /\ status s' = Some StatusBadRequest
  | None, _ =>
      drivers s' = m /\
      (status s' = Some StatusBadRequest \/
       status s' = Some StatusInternalServerError)
  end /\ written s' = [].
Proof.
  unfold userOf, Create, sbind.
  destruct (Authenticate_run config auth (header_x_api_key r) (fresh m))
    as [urls ->].
  destruct (authResult config auth (header_x_api_key r)) as [id [err|]];
    [simpl; auto|].
  destruct (id =? "")%string; [simpl; auto|].
  destruct (body_Decode r) as [d|e]; [|simpl; auto].
  destruct (negb (Name d =? "")%string); [|simpl; auto].
  unfold lookup. simpl.
  destruct (SMap.find (Name d) m); simpl; auto.
Qed.

(** The roster and the status after [Update]. *)
Lemma Update_run config auth r m :
  let s' := snd (Update config auth r (fresh m)) in
  match userOf config auth r, body_Decode r with
  | Some uid, Ok d =>
      match SMap.find (Name d) m with
      | Some drv =>
          if (Id drv =? uid)%string then
            drivers s' = SMap.add (Name d) (mkDriver uid (Name d) (Rate d)) m /\
            status s' = Some StatusOK
          else drivers s' = m /\ status s' = Some StatusBadRequest
      | None => drivers s' = m /\ status s' = Some StatusBadRequest
      end
  | _, _ => drivers s' = m /\ status s' = Some StatusBadRequest
  end /\ written s' = [].
Proof.
  unfold userOf, Update, sbind.
  destruct (Authenticate_run config auth (header_x_api_key r) (fresh m))
    as [urls ->].
  destruct (authResult config auth (header_x_api_key r)) as [id [err|]];
    [simpl; auto|].
  destruct (id =? "")%string; [simpl; auto|].
  destruct (body_Decode r) as [d|e]; [|simpl; auto].
  unfold lookup. simpl.
  destruct (SMap.find (Name d) m) as [drv|]; [|simpl; auto].
  destruct (Id drv =? id)%string; simpl; auto.
Qed.

(** The roster and the status after [Delete]. *)
Lemma Delete_run config auth r m :
  let s' := snd (Delete config auth r (fresh m)) in
  match userOf config auth r with
  | Some uid =>
      match SMap.find (vars_user r) m with
      | Some drv =>
          if (Id drv =? uid)%string then
            drivers s' = SMap.remove (vars_user r) m /\
            status s' = Some StatusOK
          else drivers s' = m /\ status s' = Some StatusBadRequest
      | None => drivers s' = m /\ status s' = Some StatusBadRequest
      end
  | None => drivers s' = m /\ status s' = Some StatusBadRequest
  end /\ written s' = [].
Proof.
  unfold userOf, Delete, sbind.
  destruct (Authenticate_run config auth (header_x_api_key r) (fresh m))
    as [urls ->].
  destruct (authResult config auth (header_x_api_key r)) as [id [err|]];
    [simpl; auto|].
  destruct (id =? "")%string; [simpl; auto|].
  unfold lookup. simpl.
  destruct (SMap.find (vars_user r) m) as [drv|]; [|simpl; auto].
  destruct (Id drv =? id)%string; simpl; auto.
Qed.

(** [Read] and [ReadAll] leave the roster as it is and ask nothing of
    the auth service. *)
Lemma Read_run config r m :
  let s' := snd (Read config r (fresh m)) in
  drivers s' = m /\ authSent s' = [] /\
  (status s', rev (written s')) =
    if negb (header_x_api_key r =? apiKey config)%string
    then (Some StatusBadRequest, [])
    else match SMap.find (vars_user r) m with
         | Some driver =>
             if F64.is_finite (Rate driver)
             then (Some StatusOK, [DriverJSON driver])
             else (Some StatusInternalServerError, [])
         | None => (Some StatusNotFound, [])
         end.
Proof.
  unfold Read, sbind, lookup, json_Marshal_driver.
  destruct (negb (header_x_api_key r =? apiKey config)%string); [simpl; auto|].
  simpl. destruct (SMap.find (vars_user r) m) as [driver|]; [|simpl; auto].
  destruct (F64.is_finite (Rate driver)); simpl; auto.
Qed.

Lemma ReadAll_run config r m :
  let s' := snd (ReadAll config r (fresh m)) in
  drivers s' = m /\ authSent s' = [] /\
  (status s', rev (written s')) =
    if negb (header_x_api_key r =? apiKey config)%string
    then (Some StatusBadRequest, [])
    else if forallb (fun entry => F64.is_finite (Rate (snd entry)))
                    (SMap.elements m)
         then (Some StatusOK, [RosterJSON m])
         else (Some StatusInternalServerError, []).
Proof.
  unfold ReadAll, sbind, json_Marshal_roster.
  destruct (negb (header_x_api_key r =? apiKey config)%string); [simpl; auto|].
  simpl. destruct (forallb _ (SMap.elements m)); simpl; auto.
Qed.

(** The roster after a request, route by route. *)
Lemma serve_cases config auth m call :
  serve config auth m call = m \/
  (exists uid d,
     fst call = POST_esr_drivers /\
     userOf config auth (snd call) = Some uid /\
     body_Decode (snd call) = Ok d /\
     Name d <> "" /\
     SMap.find (Name d) m = None /\
     serve config auth m call
       = SMap.add (Name d) (mkDriver uid (Name d) (Rate d)) m) \/
  (exists uid d drv,
     fst call = PUT_esr_drivers /\
     userOf config auth (snd call) = Some uid /\
     body_Decode (snd call) = Ok d /\
     SMap.find (Name d) m = Some drv /\
     Id drv = uid /\
     serve config auth m call
       = SMap.add (Name d) (mkDriver uid (Name d) (Rate d)) m) \/
  (exists uid drv,
     fst call = DELETE_esr_drivers_user /\
     userOf config auth (snd call) = Some uid /\
     SMap.find (vars_user (snd call)) m = Some drv /\
     Id drv = uid /\
     serve config auth m call = SMap.remove (vars_user (snd call)) m).
Proof.
  destruct call as [route r]. unfold serve. simpl fst. simpl snd.
  destruct route; simpl handle.
  - pose proof (Create_run config auth r m) as [H _]. cbv zeta in H.
    destruct (userOf config auth r) as [uid|]; [|left; apply H].
    destruct (body_Decode r) as [d|e]; [|left; apply H].
    destruct (Name d =? "")%string eqn:Hn; cbn [negb] in H; [left; apply H|].
    destruct (SMap.find (Name d) m) eqn:Hf; [left; apply H|].
    right; left. exists uid, d. apply String.eqb_neq in Hn.
    repeat (split; [auto|]). apply H.
  - left. apply (Read_run config r m).
  - left. apply (ReadAll_run config r m).
  - pose proof (Update_run config auth r m) as [H _]. cbv zeta in H.
    destruct (userOf config auth r) as [uid|]; [|left; apply H].
    destruct (body_Decode r) as [d|e]; [|left; apply H].
    destruct (SMap.find (Name d) m) as [drv|] eqn:Hf; [|left; apply H].
    destruct (Id drv =? uid)%string eqn:Hi; [|left; apply H].
    right; right; left. exists uid, d, drv. apply String.eqb_eq in Hi.
    repeat (split; [auto|]). apply H.
  - pose proof (Delete_run config auth r m) as [H _]. cbv zeta in H.
    destruct (userOf config auth r) as [uid|]; [|left; apply H].
    destruct (SMap.find (vars_user r) m) as [drv|] eqn:Hf; [|left; apply H].
    destruct (Id drv =? uid)%string eqn:Hi; [|left; apply H].
    right; right; right. exists uid, drv. apply String.eqb_eq in Hi.
    repeat (split; [auto|]). apply H.
Qed.

Lemma keyedByName_serve config auth m call :
  keyedByName m -> keyedByName (serve config auth m call).
Proof.
  intros Hinv.
  destruct (serve_cases config auth m call)
    as [->|[(uid & d & _ & _ & _ & Hn & _ & ->)
          |[(uid & d & drv & _ & _ & _ & Hf & _ & ->)
           |(uid & drv & _ & _ & _ & _ & ->)]]];
    [exact Hinv| | |]; intros index d0 H.
  - rewrite SMapFacts.add_o in H.
    destruct (String_as_OT.eq_dec (Name d) index) as [E|E]; [|eauto].
    inversion H; subst. simpl. auto.
  - rewrite SMapFacts.add_o in H.
    destruct (String_as_OT.eq_dec (Name d) index) as [E|E]; [|eauto].
    inversion H; subst. simpl. split; [reflexivity|].
    apply (Hinv _ _ Hf).
  - rewrite SMapFacts.remove_o in H.
    destruct (String_as_OT.eq_dec (vars_user (snd call)) index); [discriminate|].
    eauto.
Qed.

Lemma finiteRates_serve config auth m call :
  decodedBody call -> finiteRates m -> finiteRates (serve config auth m call).
Proof.
  intros Hbody Hinv. unfold decodedBody in Hbody.
  destruct (serve_cases config auth m call)
    as [->|[(uid & d & _ & _ & Hd & _ & _ & ->)
          |[(uid & d & drv & _ & _ & Hd & _ & _ & ->)
           |(uid & drv & _ & _ & _ & _ & ->)]]];
    [exact Hinv| | |]; intros index d0 H.
  - rewrite Hd in Hbody. rewrite SMapFacts.add_o in H.
    destruct (String_as_OT.eq_dec (Name d) index) as [E|E]; [|eauto].
    inversion H; subst. exact Hbody.
  - rewrite Hd in Hbody. rewrite SMapFacts.add_o in H.
    destruct (String_as_OT.eq_dec (Name d) index) as [E|E]; [|eauto].
    inversion H; subst. exact Hbody.
  - rewrite SMapFacts.remove_o in H.
    destruct (String_as_OT.eq_dec (vars_user (snd call)) index); [discriminate|].
    eauto.
Qed.

(** A general form of the invariants of the roster. *)
Lemma rosterAfter_invariant config auth (P : SMap.t Driver -> Prop)
    (Q : Route * Request -> Prop) :
  P (SMap.empty Driver) ->
  (forall m call, Q call -> P m -> P (serve config auth m call)) ->
  forall calls, Forall Q calls -> P (rosterAfter config auth calls).
Proof.
  intros Hempty Hstep calls. unfold rosterAfter.
  generalize (SMap.empty Driver) Hempty.
  induction calls as [|call calls IH]; intros m Hm Hall; [exact Hm|].
  inversion Hall; subst. simpl. apply IH; auto.
Qed.

End DriversFacts.

(** X10. Whatever requests the drivers service has served since [main]
    made the roster, every driver of the roster is kept under its own
    name, and that name is not empty. *)
Theorem roster_keyed_by_name (config : Drivers.Config) (auth : Drivers.AuthEnv)
    (calls : list (Drivers.Route * Drivers.Request)) (index : string)
    (d : Drivers.Driver) :
  SMap.find index (Drivers.rosterAfter config auth calls) = Some d ->
  Drivers.Name d = index /\ index <> "".
Proof.
  revert index d.
  change (Drivers.keyedByName (Drivers.rosterAfter config auth calls)).
  apply (DriversFacts.rosterAfter_invariant config auth Drivers.keyedByName
           (fun _ => True)).
  - intros index d H. rewrite SMapFacts.empty_o in H. discriminate.
  - intros m call _. apply DriversFacts.keyedByName_serve.
  - apply Forall_forall. auto.
Qed.

(** X11. A request changes or removes a driver of the roster only when
    the auth service gives, for the key of the request, the id under
    which the driver was created; and a change keeps that id and the
    name. *)
Theorem only_owner_changes (config : Drivers.Config) (auth : Drivers.AuthEnv)
    (m : SMap.t Drivers.Driver) (call : Drivers.Route * Drivers.Request)
    (index : string) (d : Drivers.Driver) :
  SMap.find index m = Some d ->
  let m' := Drivers.serve config auth m call in
  SMap.find index m' = Some d \/
  (Drivers.userOf config auth (snd call) = Some (Drivers.Id d) /\
   (SMap.find index m' = None \/
    exists d', SMap.find index m' = Some d' /\
               Drivers.Id d' = Drivers.Id d /\ Drivers.Name d' = index)).
Proof.
  intros Hd m'. unfold m'.
  destruct (DriversFacts.serve_cases config auth m call)
    as [->|[(uid & d0 & _ & _ & _ & _ & Hf & ->)
          |[(uid & d0 & drv & _ & Hu & _ & Hf & Hi & ->)
           |(uid & drv & _ & Hu & Hf & Hi & ->)]]];
    [left; exact Hd| | |].
  - left. rewrite SMapFacts.add_o.
    destruct (String_as_OT.eq_dec (Drivers.Name d0) index) as [E|E];
      [congruence|exact Hd].
  - rewrite SMapFacts.add_o.
    destruct (String_as_OT.eq_dec (Drivers.Name d0) index) as [E|E];
      [|left; exact Hd].
    right. rewrite E in Hf. rewrite Hf in Hd. inversion Hd; subst drv.
    split; [congruence|]. right. eexists. split; [reflexivity|].
    simpl. auto.
  - rewrite SMapFacts.remove_o.
    destruct (String_as_OT.eq_dec (Drivers.vars_user (snd call)) index) as [E|E];
      [|left; exact Hd].
    right. rewrite E in Hf. rewrite Hf in Hd. inversion Hd; subst drv.
    split; [congruence|]. left; reflexivity.
Qed.

Lemma elements_find (m : SMap.t Drivers.Driver) index d :
  In (index, d) (SMap.elements m) -> SMap.find index m = Some d.
Proof.
  intros H. apply SMapFacts.find_mapsto_iff, SMapFacts.elements_mapsto_iff.
  apply InA_alt. exists (index, d). split; [split; reflexivity | exact H].
Qed.

Lemma finiteRates_elements (m : SMap.t Drivers.Driver) :
  Drivers.finiteRates m ->
  forallb (fun entry => F64.is_finite (Drivers.Rate (snd entry)))
          (SMap.elements m) = true.
Proof.
  intros H. apply forallb_forall. intros [index d] Hin.
  apply (H index d), elements_find, Hin.
Qed.

(** X12. [Create] answers 201 exactly when the auth service gives a user
    id that is not empty for the key, the body decodes to a driver with
    a name, and no driver of the roster has that name.  It then adds the
    driver under its name with that user id and touches no other entry;
    in every other case it leaves the roster as it is, so that it never
    replaces a driver.  It writes no body. *)
Theorem Create_created_iff (config : Drivers.Config) (auth : Drivers.AuthEnv)
    (r : Drivers.Request) (m : SMap.t Drivers.Driver) :
  let call := (Drivers.POST_esr_drivers, r) in
  let m' := Drivers.serve config auth m call in
  (fst (Drivers.answer config auth m call) = Some StatusCreated <->
   exists uid d,
     Drivers.userOf config auth r = Some uid /\
     Drivers.body_Decode r = Ok d /\
     Drivers.Name d <> "" /\
     SMap.find (Drivers.Name d) m = None) /\
  (forall uid d,
     Drivers.userOf config auth r = Some uid ->
     Drivers.body_Decode r = Ok d ->
     Drivers.Name d <> "" ->
     SMap.find (Drivers.Name d) m = None ->
     SMap.find (Drivers.Name d) m'
       = Some (Drivers.mkDriver uid (Drivers.Name d) (Drivers.Rate d)) /\
     forall index, index <> Drivers.Name d ->
       SMap.find index m' = SMap.find index m) /\
  (fst (Drivers.answer config auth m call) <> Some StatusCreated -> m' = m) /\
  snd (Drivers.answer config auth m call) = [].
Proof.
  intros call m'. unfold m', call, Drivers.answer, Drivers.serve.
  simpl fst. simpl snd. simpl Drivers.handle.
  pose proof (DriversFacts.Create_run config auth r m) as [H Hw].
  cbv zeta in H, Hw. rewrite Hw.
  assert (Hbad : forall s',
            Drivers.drivers s' = m ->
            Drivers.status s' <> Some StatusCreated ->
            ~ (exists uid d,
                 Drivers.userOf config auth r = Some uid /\
                 Drivers.body_Decode r = Ok d /\
                 Drivers.Name d <> "" /\
                 SMap.find (Drivers.Name d) m = None) ->
            (Drivers.status s' = Some StatusCreated <->
             exists uid d,
               Drivers.userOf config auth r = Some uid /\
               Drivers.body_Decode r = Ok d /\
               Drivers.Name d <> "" /\
               SMap.find (Drivers.Name d) m = None) /\
            (forall uid d,
               Drivers.userOf config auth r = Some uid ->
               Drivers.body_Decode r = Ok d ->
               Drivers.Name d <> "" ->
               SMap.find (Drivers.Name d) m = None ->
               SMap.find (Drivers.Name d) (Drivers.drivers s')
                 = Some (Drivers.mkDriver uid (Drivers.Name d) (Drivers.Rate d)) /\
               forall index, index <> Drivers.Name d ->
                 SMap.find index (Drivers.drivers s') = SMap.find index m) /\
            (Drivers.status s' <> Some StatusCreated -> Drivers.drivers s' = m) /\
            rev (@nil Drivers.Payload) = []).
  { intros s' Hm Hs Hno.
    split; [split; [intros Hx; elim (Hs Hx) | intros Hex; elim (Hno Hex)]|].
    split; [intros uid d H1 H2 H3 H4; exfalso; apply Hno; exists uid, d; auto|].
    split; auto. }
  destruct (Drivers.userOf config auth r) as [uid|] eqn:Hu.
  2:{ destruct H as [Hm Hs]. apply Hbad; [exact Hm| |].
      - destruct Hs as [-> | ->]; discriminate.
      - intros (u & d & Hx & _). discriminate. }
  destruct (Drivers.body_Decode r) as [d|e] eqn:Hb.
  2:{ destruct H as [Hm Hs]. apply Hbad; [exact Hm| |].
      - rewrite Hs; discriminate.
      - intros (u & d & _ & Hx & _). discriminate. }
  destruct (Drivers.Name d =? "")%string eqn:Hn; cbn [negb] in H.
  { destruct H as [Hm Hs]. apply String.eqb_eq in Hn.
    apply Hbad; [exact Hm| |].
    - rewrite Hs; discriminate.
    - intros (u & d' & _ & Hx & Hne & _). inversion Hx; subst. congruence. }
  apply String.eqb_neq in Hn.
  destruct (SMap.find (Drivers.Name d) m) eqn:Hf.
  { destruct H as [Hm Hs]. apply Hbad; [exact Hm| |].
    - rewrite Hs; discriminate.
    - intros (u & d' & _ & Hx & _ & Hf'). inversion Hx; subst. congruence. }
  destruct H as [-> ->].
  split; [split; [intros _; exists uid, d; auto | reflexivity]|].
  split; [|split; [congruence | reflexivity]].
  intros u d' Hx Hy _ _. inversion Hx; inversion Hy; subst.
  split; [apply SMapFacts.add_eq_o; reflexivity|].
  intros index Hi. apply SMapFacts.add_neq_o. congruence.
Qed.

(** X13. A driver that [Create] has just added is what [Read] answers
    for its name, with status 200, to a request that carries the key of
    the service: the name and the rate are those of the body, the id is
    the one of the user. *)
Theorem Create_then_Read (config : Drivers.Config) (auth : Drivers.AuthEnv)
    (r rd : Drivers.Request) (m : SMap.t Drivers.Driver) (uid : string)
    (d : Drivers.Driver) :
  Drivers.userOf config auth r = Some uid ->
  Drivers.body_Decode r = Ok d ->
  Drivers.Name d <> "" ->
  SMap.find (Drivers.Name d) m = None ->
  F64.is_finite (Drivers.Rate d) = true ->
  Drivers.header_x_api_key rd = Drivers.apiKey config ->
  Drivers.vars_user rd = Drivers.Name d ->
  Drivers.answer config auth
    (Drivers.serve config auth m (Drivers.POST_esr_drivers, r))
    (Drivers.GET_esr_drivers_user, rd)
  = (Some StatusOK,
     [Drivers.DriverJSON (Drivers.mkDriver uid (Drivers.Name d) (Drivers.Rate d))]).
Proof.
  intros Hu Hb Hn Hf Hfin Hkey Huser.
  unfold Drivers.answer. simpl fst. simpl snd. simpl Drivers.handle.
  match goal with
  | |- context [Drivers.Read config rd (Drivers.fresh ?m1)] =>
      destruct (DriversFacts.Read_run config rd m1) as (_ & _ & ->);
      assert (Hfind : SMap.find (Drivers.Name d) m1
                      = Some (Drivers.mkDriver uid (Drivers.Name d) (Drivers.Rate d)))
  end.
  { unfold Drivers.serve. simpl fst. simpl snd. simpl Drivers.handle.
    pose proof (DriversFacts.Create_run config auth r m) as [H _].
    cbv zeta in H. rewrite Hu, Hb, Hf in H.
    apply String.eqb_neq in Hn. rewrite Hn in H. cbn [negb] in H.
    destruct H as [-> _]. apply SMapFacts.add_eq_o. reflexivity. }
  rewrite Hkey, String.eqb_refl. cbn [negb].
  rewrite Huser, Hfind. simpl. rewrite Hfin. reflexivity.
Qed.

(** X14. [Delete] answers 200 exactly when the roster has a driver under
    the name of the URL and the auth service gives, for the key, the id
    of that driver.  The driver is then gone, [Read] answers 404 for its
    name, and no other entry is touched; in every other case [Delete]
    answers 400 and leaves the roster as it is. *)
Theorem Delete_deleted_iff (config : Drivers.Config) (auth : Drivers.AuthEnv)
    (r : Drivers.Request) (m : SMap.t Drivers.Driver) :
  let call := (Drivers.DELETE_esr_drivers_user, r) in
  let m' := Drivers.serve config auth m call in
  (fst (Drivers.answer config auth m call) = Some StatusOK <->
   exists drv,
     SMap.find (Drivers.vars_user r) m = Some drv /\
     Drivers.userOf config auth r = Some (Drivers.Id drv)) /\
  (fst (Drivers.answer config auth m call) = Some StatusOK ->
   SMap.find (Drivers.vars_user r) m' = None /\
   (forall index, index <> Drivers.vars_user r ->
      SMap.find index m' = SMap.find index m) /\
   forall rd,
     Drivers.header_x_api_key rd = Drivers.apiKey config ->
     Drivers.vars_user rd = Drivers.vars_user r ->
     Drivers.answer config auth m' (Drivers.GET_esr_drivers_user, rd)
       = (Some StatusNotFound, [])) /\
  (fst (Drivers.answer config auth m call) <> Some StatusOK ->
   m' = m /\
   Drivers.answer config auth m call = (Some StatusBadRequest, [])).
Proof.
  intros call m'. unfold m', call, Drivers.answer at 1 2 3 5, Drivers.serve.
  simpl fst. simpl snd. simpl Drivers.handle.
  pose proof (DriversFacts.Delete_run config auth r m) as [H Hw].
  cbv zeta in H, Hw. rewrite Hw.
  assert (Hbad : forall s',
            Drivers.drivers s' = m /\ Drivers.status s' = Some StatusBadRequest ->
            ~ (exists drv,
                 SMap.find (Drivers.vars_user r) m = Some drv /\
                 Drivers.userOf config auth r = Some (Drivers.Id drv)) ->
            (Drivers.status s' = Some StatusOK <->
             exists drv,
               SMap.find (Drivers.vars_user r) m = Some drv /\
               Drivers.userOf config auth r = Some (Drivers.Id drv)) /\
            (Drivers.status s' = Some StatusOK ->
             SMap.find (Drivers.vars_user r) (Drivers.drivers s') = None /\
             (forall index, index <> Drivers.vars_user r ->
                SMap.find index (Drivers.drivers s') = SMap.find index m) /\
             forall rd,
               Drivers.header_x_api_key rd = Drivers.apiKey config ->
               Drivers.vars_user rd = Drivers.vars_user r ->
               Drivers.answer config auth (Drivers.drivers s')
                 (Drivers.GET_esr_drivers_user, rd)
               = (Some StatusNotFound, [])) /\
            (Drivers.status s' <> Some StatusOK ->
             Drivers.drivers s' = m /\
             (Drivers.status s', rev (@nil Drivers.Payload)) = (Some StatusBadRequest, []))).
  { intros s' [Hm Hs] Hno. rewrite Hm, Hs.
    split; [split; [discriminate | intros Hex; elim (Hno Hex)]|].
    split; [discriminate | auto]. }
  destruct (Drivers.userOf config auth r) as [uid|] eqn:Hu.
  2:{ apply Hbad; [exact H|]. intros (drv & _ & Hx). discriminate. }
  destruct (SMap.find (Drivers.vars_user r) m) as [drv|] eqn:Hf.
  2:{ apply Hbad; [exact H|]. intros (drv & Hx & _). discriminate. }
  destruct (Drivers.Id drv =? uid)%string eqn:Hi.
  2:{ apply Hbad; [exact H|]. intros (drv' & Hx & Hy).
      inversion Hx; inversion Hy; subst.
      rewrite String.eqb_refl in Hi. discriminate. }
  apply String.eqb_eq in Hi. destruct H as [Hm Hs]. rewrite Hm, Hs.
  split; [split; [intros _; exists drv; split; congruence | reflexivity]|].
  split; [intros _|congruence].
  split; [apply SMapFacts.remove_eq_o; reflexivity|].
  split; [intros index Hne; apply SMapFacts.remove_neq_o; congruence|].
  intros rd Hkey Huser. unfold Drivers.answer.
  simpl fst. simpl snd. simpl Drivers.handle.
  destruct (DriversFacts.Read_run config rd (SMap.remove (Drivers.vars_user r) m))
    as (_ & _ & ->).
  rewrite Hkey, String.eqb_refl. cbn [negb].
  rewrite Huser, SMapFacts.remove_eq_o by reflexivity. reflexivity.
Qed.

(** X15. [Update] answers 200 exactly when the body decodes to a driver
    whose name is in the roster and the auth service gives, for the key,
    the id of the driver kept under that name.  It then replaces the
    rate of that driver by the one of the body, keeps its id, and
    touches no other entry; in every other case it answers 400 and
    leaves the roster as it is.  So [Update] never adds a driver. *)
Theorem Update_updated_iff (config : Drivers.Config) (auth : Drivers.AuthEnv)
    (r : Drivers.Request) (m : SMap.t Drivers.Driver) :
  let call := (Drivers.PUT_esr_drivers, r) in
  let m' := Drivers.serve config auth m call in
  (fst (Drivers.answer config auth m call) = Some StatusOK <->
   exists d drv,
     Drivers.body_Decode r = Ok d /\
     SMap.find (Drivers.Name d) m = Some drv /\
     Drivers.userOf config auth r = Some (Drivers.Id drv)) /\
  (forall d drv,
     Drivers.body_Decode r = Ok d ->
     SMap.find (Drivers.Name d) m = Some drv ->
     Drivers.userOf config auth r = Some (Drivers.Id drv) ->
     SMap.find (Drivers.Name d) m'
       = Some (Drivers.mkDriver (Drivers.Id drv) (Drivers.Name d) (Drivers.Rate d)) /\
     forall index, index <> Drivers.Name d ->
       SMap.find index m' = SMap.find index m) /\
  (fst (Drivers.answer config auth m call) <> Some StatusOK ->
   m' = m /\
   Drivers.answer config auth m call = (Some StatusBadRequest, [])) /\
  (forall index, SMap.find index m = None -> SMap.find index m' = None).
Proof.
  intros call m'. unfold m', call, Drivers.answer, Drivers.serve.
  simpl fst. simpl snd. simpl Drivers.handle.
  pose proof (DriversFacts.Update_run config auth r m) as [H Hw].
  cbv zeta in H, Hw. rewrite Hw.
  assert (Hbad : forall s',
            Drivers.drivers s' = m /\ Drivers.status s' = Some StatusBadRequest ->
            ~ (exists d drv,
                 Drivers.body_Decode r = Ok d /\
                 SMap.find (Drivers.Name d) m = Some drv /\
                 Drivers.userOf config auth r = Some (Drivers.Id drv)) ->
            (Drivers.status s' = Some StatusOK <->
             exists d drv,
               Drivers.body_Decode r = Ok d /\
               SMap.find (Drivers.Name d) m = Some drv /\
               Drivers.userOf config auth r = Some (Drivers.Id drv)) /\
            (forall d drv,
               Drivers.body_Decode r = Ok d ->
               SMap.find (Drivers.Name d) m = Some drv ->
               Drivers.userOf config auth r = Some (Drivers.Id drv) ->
               SMap.find (Drivers.Name d) (Drivers.drivers s')
                 = Some (Drivers.mkDriver (Drivers.Id drv) (Drivers.Name d)
                           (Drivers.Rate d)) /\
               forall index, index <> Drivers.Name d ->
                 SMap.find index (Drivers.drivers s') = SMap.find index m) /\
            (Drivers.status s' <> Some StatusOK ->
             Drivers.drivers s' = m /\
             (Drivers.status s', rev (@nil Drivers.Payload)) = (Some StatusBadRequest, [])) /\
            (forall index, SMap.find index m = None ->
               SMap.find index (Drivers.drivers s') = None)).
  { intros s' [Hm Hs] Hno. rewrite Hm, Hs.
    split; [split; [discriminate | intros Hex; elim (Hno Hex)]|].
    split; [intros d drv H1 H2 H3; exfalso; apply Hno; exists d, drv; auto|].
    split; auto. }
  destruct (Drivers.userOf config auth r) as [uid|] eqn:Hu.
  2:{ apply Hbad; [destruct (Drivers.body_Decode r); exact H|].
      intros (d & drv & _ & _ & Hx). discriminate. }
  destruct (Drivers.body_Decode r) as [d|e] eqn:Hb.
  2:{ apply Hbad; [exact H|]. intros (d & drv & Hx & _). discriminate. }
  destruct (SMap.find (Drivers.Name d) m) as [drv|] eqn:Hf.
  2:{ apply Hbad; [exact H|]. intros (d' & drv & Hx & Hy & _).
      inversion Hx; subst. congruence. }
  destruct (Drivers.Id drv =? uid)%string eqn:Hi.
  2:{ apply Hbad; [exact H|]. intros (d' & drv' & Hx & Hy & Hz).
      inversion Hx; subst d'. rewrite Hf in Hy.
      inversion Hy; inversion Hz; subst.
      rewrite String.eqb_refl in Hi. discriminate. }
  apply String.eqb_eq in Hi. destruct H as [Hm Hs]. rewrite Hm, Hs.
  split; [split; [intros _; exists d, drv; repeat split; congruence
                 | reflexivity]|].
  split; [|split; [congruence|]].
  - intros d' drv' Hx Hy Hz. inversion Hx; subst d'.
    rewrite Hf in Hy. inversion Hy; subst drv'. subst uid.
    split; [apply SMapFacts.add_eq_o; reflexivity|].
    intros index Hne. apply SMapFacts.add_neq_o. congruence.
  - intros index Hnone. rewrite SMapFacts.add_neq_o; [exact Hnone|].
    congruence.
Qed.

(** X16. As long as the bodies of the requests that decoded carried
    finite rates, which JSON numbers are, [ReadAll] and [Read] never
    answer 500: with the key of the service [ReadAll] answers 200 with
    the whole roster, [Read] answers 200 with the driver kept under the
    name asked, or 404 when there is none; with another key both answer
    400.  Neither changes the roster nor asks the auth service. *)
Theorem reads_of_roster (config : Drivers.Config) (auth : Drivers.AuthEnv)
    (calls : list (Drivers.Route * Drivers.Request)) (rd : Drivers.Request) :
  Forall Drivers.decodedBody calls ->
  let m := Drivers.rosterAfter config auth calls in
  Drivers.answer config auth m (Drivers.GET_esr_drivers, rd)
    = (if (Drivers.header_x_api_key rd =? Drivers.apiKey config)%string
       then (Some StatusOK, [Drivers.RosterJSON m])
       else (Some StatusBadRequest, [])) /\
  Drivers.answer config auth m (Drivers.GET_esr_drivers_user, rd)
    = (if (Drivers.header_x_api_key rd =? Drivers.apiKey config)%string
       then match SMap.find (Drivers.vars_user rd) m with
            | Some driver => (Some StatusOK, [Drivers.DriverJSON driver])
            | None => (Some StatusNotFound, [])
            end
       else (Some StatusBadRequest, [])) /\
  Drivers.serve config auth m (Drivers.GET_esr_drivers, rd) = m /\
  Drivers.serve config auth m (Drivers.GET_esr_drivers_user, rd) = m /\
  Drivers.authSent
    (snd (Drivers.handle config auth Drivers.GET_esr_drivers rd (Drivers.fresh m)))
    = [] /\
  Drivers.authSent
    (snd (Drivers.handle config auth Drivers.GET_esr_drivers_user rd
            (Drivers.fresh m)))
    = [].
Proof.
  intros Hcalls m.
  assert (Hfin : Drivers.finiteRates m).
  { apply (DriversFacts.rosterAfter_invariant config auth Drivers.finiteRates
             Drivers.decodedBody); auto.
    - intros index d H. rewrite SMapFacts.empty_o in H. discriminate.
    - intros m0 call. apply DriversFacts.finiteRates_serve. }
  unfold Drivers.answer, Drivers.serve. simpl fst. simpl snd. simpl Drivers.handle.
  destruct (DriversFacts.ReadAll_run config rd m) as (Hm1 & Ha1 & ->).
  destruct (DriversFacts.Read_run config rd m) as (Hm2 & Ha2 & ->).
  rewrite (finiteRates_elements m Hfin).
  destruct (Drivers.header_x_api_key rd =? Drivers.apiKey config)%string;
    cbn [negb]; repeat split; auto.
  destruct (SMap.find (Drivers.vars_user rd) m) as [driver|] eqn:Hf;
    [|reflexivity].
  rewrite (Hfin _ _ Hf). reflexivity.
Qed.

(** X17. The two services together: when the roster that
    [FindBestDriver] decodes is made of drivers that the drivers service
    keeps, [RiderRequest] answers "No drivers available at this time."
    exactly when that roster is empty: the drivers service keeps no
    driver without a name, as the comment in [RiderRequest] says. *)
Theorem no_drivers_iff_empty_roster (config : Drivers.Config)
    (auth : Drivers.AuthEnv) (calls : list (Drivers.Route * Drivers.Request))
    (env : Env) (journey : Journey) (drivers : list (string * Driver)) :
  request_Decode env = Ok journey ->
  rosterIs env drivers ->
  decodedRoster drivers = true ->
  incl drivers (rosterSeenByRiders (Drivers.rosterAfter config auth calls)) ->
  (reply (left_by (RiderRequest env) emptyWorld)
     = (Some StatusOK, [Text NoDriversMessage])
   <-> drivers = []).
Proof.
  intros Hj Hroster Hdec Hincl.
  assert (Hkeyed : Drivers.keyedByName (Drivers.rosterAfter config auth calls)).
  { apply (DriversFacts.rosterAfter_invariant config auth Drivers.keyedByName
             (fun _ => True)).
    - intros index d H. rewrite SMapFacts.empty_o in H. discriminate.
    - intros m call _. apply DriversFacts.keyedByName_serve.
    - apply Forall_forall. auto. }
  assert (Hnamed : allNamed drivers = true).
  { apply forallb_forall. intros entry Hin.
    apply Hincl in Hin. unfold rosterSeenByRiders in Hin.
    apply in_map_iff in Hin as ([index d] & <- & Hin). simpl.
    apply negb_true_iff, String.eqb_neq.
    apply elements_find in Hin.
    destruct (Hkeyed index d Hin) as [-> Hne]. exact Hne. }
  split.
  - intros Hreply.
    destruct drivers as [|entry drivers]; [reflexivity|]. exfalso.
    revert Hreply.
    apply (named_roster_answer env journey (entry :: drivers)
             Hj Hroster Hdec Hnamed).
    discriminate.
  - intros ->.
    rewrite (RiderRequest_no_name env journey [] emptyWorld Hj Hroster eq_refl).
    reflexivity.
Qed.

(** * The auth service *)

Module AuthFacts.
Import AuthService.

Lemma idOfKey_first pre : forall user post key,
  Key user = key ->
  (forall u, In u pre -> Key u <> key) ->
  idOfKey (pre ++ user :: post) key = Id user.
Proof.
  induction pre as [|u pre IH]; intros user post key Hk Hpre; simpl.
  - rewrite Hk, String.eqb_refl. reflexivity.
  - destruct (String.eqb_spec (Key u) key) as [E|E].
    + exfalso. apply (Hpre u); [left; reflexivity | exact E].
    + apply IH; [exact Hk|]. intros v Hv. apply Hpre. right. exact Hv.
Qed.

Lemma idOfKey_none users key :
  (forall u, In u users -> Key u <> key) -> idOfKey users key = "".
Proof.
  induction users as [|u users IH]; intros H; simpl; [reflexivity|].
  destruct (String.eqb_spec (Key u) key) as [E|E].
  - exfalso. apply (H u); [left; reflexivity | exact E].
  - apply IH. intros v Hv. apply H. right. exact Hv.
Qed.

(** The answer of [Authenticate], case by case. *)
Lemma answer_cases config files r :
  answer config files r =
    if negb (header_x_api_key r =? apiKey config)%string
    then (Some StatusBadRequest, "")
    else match os_Open files (usersPath config),
               users_Decode files (usersPath config) with
         | None, Ok users => (Some StatusOK, idOfKey users (vars_key r))
         | _, _ => (Some StatusInternalServerError, "")
         end.
Proof.
  unfold answer, Authenticate, sbind.
  destruct (negb (header_x_api_key r =? apiKey config)%string); [reflexivity|].
  destruct (os_Open files (usersPath config)); [reflexivity|].
  destruct (users_Decode files (usersPath config)) as [users|e]; [|reflexivity].
  destruct (negb (idOfKey users (vars_key r) =? "")%string); reflexivity.
Qed.

End AuthFacts.

(** X18. For a request with the key of the service, when the file of
    the users opens and decodes, [Authenticate] answers 200 with the id
    of the first user of the file whose key is the one asked, whatever
    users with the same key come after, and with an empty body when no
    user has that key. *)
Theorem Authenticate_first_user (config : AuthService.Config)
    (files : AuthService.FileEnv) (r : AuthService.Request)
    (users : list AuthService.User) :
  AuthService.header_x_api_key r = AuthService.apiKey config ->
  AuthService.os_Open files (AuthService.usersPath config) = None ->
  AuthService.users_Decode files (AuthService.usersPath config) = Ok users ->
  (forall pre user post,
     users = pre ++ user :: post ->
     AuthService.Key user = AuthService.vars_key r ->
     (forall u, In u pre -> AuthService.Key u <> AuthService.vars_key r) ->
     AuthService.answer config files r = (Some StatusOK, AuthService.Id user)) /\
  ((forall u, In u users -> AuthService.Key u <> AuthService.vars_key r) ->
   AuthService.answer config files r = (Some StatusOK, "")).
Proof.
  intros Hkey Hopen Hdec.
  rewrite AuthFacts.answer_cases, Hkey, String.eqb_refl, Hopen, Hdec.
  cbn [negb]. split.
  - intros pre user post -> Hk Hpre.
    rewrite AuthFacts.idOfKey_first; auto.
  - intros Hno. rewrite AuthFacts.idOfKey_none; auto.
Qed.

(** * The directions service *)

Module DirectionsFacts.
Import DirectionsService.



Lemma ReplaceAll_without s old new :
  hasByte old s = false -> strings_ReplaceAll s old new = s.
Proof.
  induction s as [|c s IH]; simpl; intros H; [reflexivity|].
  apply orb_false_elim in H as [Hc Hs]. rewrite Hc, IH; auto.
Qed.


End DirectionsFacts.

(** X20. [GetDirections] answers 400, and asks nothing of Google, when
    the request does not carry the key of the service or its body does
    not decode.  Otherwise it asks Google at most once, at the URL made
    of the journey, and answers with the very body that Google gave,
    with status 200, or with status 500 and no body when the request
    to Google cannot be created or sent or its answer cannot be read. *)
Theorem GetDirections_cases (config : DirectionsService.Config)
    (google : DirectionsService.GoogleEnv) (r : DirectionsService.Request) :
  let s := snd (DirectionsService.GetDirections config google r
                  DirectionsService.fresh) in
  let answer := (DirectionsService.status s, DirectionsService.written s) in
  ((DirectionsService.header_x_api_key r <> DirectionsService.apiKey config \/
    exists e, DirectionsService.body_Decode r = Err e) ->
   answer = (Some StatusBadRequest, []) /\ DirectionsService.sent s = []) /\
  (forall journey,
     DirectionsService.header_x_api_key r = DirectionsService.apiKey config ->
     DirectionsService.body_Decode r = Ok journey ->
     let url := DirectionsService.googleRequestUrl config journey in
     match DirectionsService.google_NewRequest google url,
           DirectionsService.google_Do google url,
           DirectionsService.google_ReadAll google url with
     | None, None, Ok body =>
         answer = (Some StatusOK, [body]) /\ DirectionsService.sent s = [url]
     | None, _, _ =>
         answer = (Some StatusInternalServerError, []) /\
         DirectionsService.sent s = [url]
     | Some _, _, _ =>
         answer = (Some StatusInternalServerError, []) /\
         DirectionsService.sent s = []
     end).
Proof.
  intros s answer. unfold answer, s, DirectionsService.GetDirections, sbind.
  split.
  - intros [Hk|[e He]].
    + apply String.eqb_neq in Hk. rewrite Hk. cbn [negb]. split; reflexivity.
    + destruct (negb _); [split; reflexivity|]. rewrite He. split; reflexivity.
  - intros journey Hk Hb. rewrite Hk, String.eqb_refl, Hb. cbn [negb].
    unfold DirectionsService.googleRequestUrl. cbv zeta.
    match goal with
    | |- context [DirectionsService.google_NewRequest google ?u] =>
        set (url := u)
    end.
    destruct (DirectionsService.google_NewRequest google url);
      [split; reflexivity|].
    unfold DirectionsService.client_Do.
    destruct (DirectionsService.google_Do google url); [split; reflexivity|].
    destruct (DirectionsService.google_ReadAll google url);
      split; reflexivity.
Qed.


(** * The further properties at sample requests *)

Lemma FindBestDriver_first_lowest_witness :
  rosterIs sampleEnv sampleRoster /\
  decodedRoster sampleRoster = true /\
  sampleRoster <> [] /\
  exists pre name driver post,
    sampleRoster = pre ++ (name, driver) :: post /\
    fst (fst (returned (FindBestDriver sampleEnv) emptyWorld)) = driver /\
    (forall entry, In entry pre -> (Rate driver <? Rate (snd entry))%f64 = true) /\
    (forall entry, In entry post -> (Rate driver <=? Rate (snd entry))%f64 = true).
Proof.
  split; [exact sampleEnv_roster|]. split; [reflexivity|].
  split; [discriminate|].
  apply (FindBestDriver_first_lowest sampleEnv sampleRoster emptyWorld
           sampleEnv_roster eq_refl).
  discriminate.
Defined.

Lemma RiderRequest_no_drivers_iff_empty_witness :
  request_Decode sampleEnv = Ok sampleJourney /\
  rosterIs sampleEnv sampleRoster /\
  decodedRoster sampleRoster = true /\
  allNamed sampleRoster = true /\
  (reply (left_by (RiderRequest sampleEnv) emptyWorld)
     = (Some StatusOK, [Text NoDriversMessage])
   <-> sampleRoster = []).
Proof.
  split; [reflexivity|]. split; [exact sampleEnv_roster|].
  split; [reflexivity|]. split; [reflexivity|].
  apply (RiderRequest_no_drivers_iff_empty sampleEnv sampleJourney sampleRoster
           eq_refl sampleEnv_roster eq_refl eq_refl).
Defined.

Lemma RiderRequest_quote_witness :
  request_Decode sampleEnv = Ok sampleJourney /\
  allNamed sampleRoster = true /\
  directionsAre sampleEnv sampleJourney sampleDirections /\
  exists name driver,
    In (name, driver) sampleRoster /\
    (forall name' d', In (name', d') sampleRoster ->
       (Rate driver <=? Rate d')%f64 = true) /\
    let multiplier :=
      legMultiplier sampleLeg (Z.of_nat (List.length sampleRoster))
                    (clock_hour sampleEnv) in
    let final := (multiplier * Rate driver)%f64 in
    let cost :=
      (Value (leg_Distance sampleLeg) / f1000 * Rate driver * multiplier)%f64 in
    reply (left_by (RiderRequest sampleEnv) emptyWorld) =
      if F64.is_finite final && F64.is_finite cost
      then (Some StatusOK, [ResponseJSON (mkResponse final cost)])
      else (Some StatusInternalServerError, []).
Proof.
  split; [reflexivity|]. split; [reflexivity|].
  split; [exact sampleEnv_directions|].
  apply (RiderRequest_quote sampleEnv sampleJourney sampleRoster sampleDirections
           (mkRoute [sampleLeg]) [] sampleLeg []
           eq_refl sampleEnv_roster eq_refl eq_refl);
    [discriminate | exact sampleEnv_directions | reflexivity | reflexivity].
Defined.

Lemma CalculateCost_not_negative_witness :
  directionsAre sampleEnv sampleJourney sampleDirections /\
  (f0 <=? Value (leg_Distance sampleLeg))%f64 = true /\
  (f0 <=? F64.of_Z 7)%f64 = true /\
  exists cost final,
    returned (CalculateCost sampleEnv sampleJourney (mkDriver "bob" (F64.of_Z 7)) 3)
             emptyWorld = (cost, final, None) /\
    (cost <? f0)%f64 = false /\
    (final <? f0)%f64 = false.
Proof.
  split; [exact sampleEnv_directions|]. split; [reflexivity|].
  split; [reflexivity|].
  apply (CalculateCost_not_negative sampleEnv sampleJourney
           (mkDriver "bob" (F64.of_Z 7)) 3 emptyWorld sampleDirections
           (mkRoute [sampleLeg]) [] sampleLeg []
           sampleEnv_directions eq_refl eq_refl eq_refl eq_refl).
Defined.

Lemma sideLeg_names_no_A_road :
  forall step, In step (Steps sideLeg) -> ~ namesARoad (instructionBytes step).
Proof.
  intros step [<-|[]] H.
  apply ARoadPattern.search_namesARoad in H. vm_compute in H. discriminate.
Defined.

Lemma other_steps_ignored_witness :
  (forall step, In step (Steps sideLeg) -> ~ namesARoad (instructionBytes step)) /\
  (f0 <=? Value (leg_Distance sideLeg))%f64 = true /\
  aRoadLoop (Steps sideLeg) f0 = Ok f0 /\
  forall numDrivers hour,
    legMultiplier (mkLeg (leg_Distance sideLeg) (Steps sideLeg)) numDrivers hour
      = applyRules false (scarcityRule numDrivers) (offPeakRule hour).
Proof.
  split; [exact sideLeg_names_no_A_road|]. split; [reflexivity|].
  apply (proj2 (other_steps_ignored (Steps sideLeg) (leg_Distance sideLeg))
           sideLeg_names_no_A_road eq_refl).
Defined.

Lemma roster_keyed_by_name_witness :
  SMap.find "ann" (Drivers.rosterAfter driversConfig sampleAuth [createAnn])
    = Some (Drivers.mkDriver "u1" "ann" (F64.of_Z 10)) /\
  Drivers.Name (Drivers.mkDriver "u1" "ann" (F64.of_Z 10)) = "ann" /\
  "ann" <> "".
Proof.
  split; [reflexivity|].
  apply (roster_keyed_by_name driversConfig sampleAuth [createAnn] "ann"
           (Drivers.mkDriver "u1" "ann" (F64.of_Z 10)) eq_refl).
Defined.

Lemma only_owner_changes_witness :
  let m := Drivers.rosterAfter driversConfig sampleAuth [createAnn] in
  let call :=
    (Drivers.DELETE_esr_drivers_user, Drivers.mkRequest "k9" "ann" (Err "EOF")) in
  let d := Drivers.mkDriver "u1" "ann" (F64.of_Z 10) in
  SMap.find "ann" m = Some d /\
  (SMap.find "ann" (Drivers.serve driversConfig sampleAuth m call) = Some d \/
   (Drivers.userOf driversConfig sampleAuth (snd call) = Some (Drivers.Id d) /\
    (SMap.find "ann" (Drivers.serve driversConfig sampleAuth m call) = None \/
     exists d',
       SMap.find "ann" (Drivers.serve driversConfig sampleAuth m call) = Some d' /\
       Drivers.Id d' = Drivers.Id d /\ Drivers.Name d' = "ann"))).
Proof.
  intros m call d. split; [reflexivity|].
  apply (only_owner_changes driversConfig sampleAuth m call "ann" d eq_refl).
Defined.

Lemma Create_then_Read_witness :
  Drivers.userOf driversConfig sampleAuth (snd createAnn) = Some "u1" /\
  SMap.find "ann" (SMap.empty Drivers.Driver) = None /\
  Drivers.answer driversConfig sampleAuth
    (Drivers.serve driversConfig sampleAuth (SMap.empty Drivers.Driver)
       (Drivers.POST_esr_drivers, snd createAnn))
    (Drivers.GET_esr_drivers_user, readAnn)
  = (Some StatusOK,
     [Drivers.DriverJSON (Drivers.mkDriver "u1" "ann" (F64.of_Z 10))]).
Proof.
  split; [reflexivity|]. split; [reflexivity|].
  apply (Create_then_Read driversConfig sampleAuth (snd createAnn) readAnn
           (SMap.empty Drivers.Driver) "u1"
           (Drivers.mkDriver "" "ann" (F64.of_Z 10))
           eq_refl eq_refl);
    [discriminate | reflexivity | reflexivity | reflexivity | reflexivity].
Defined.

Lemma createAnn_decoded : Forall Drivers.decodedBody [createAnn].
Proof. constructor; [reflexivity | constructor]. Defined.

Lemma reads_of_roster_witness :
  Forall Drivers.decodedBody [createAnn] /\
  Drivers.answer driversConfig sampleAuth
    (Drivers.rosterAfter driversConfig sampleAuth [createAnn])
    (Drivers.GET_esr_drivers_user, readAnn)
  = (if (Drivers.header_x_api_key readAnn =? Drivers.apiKey driversConfig)%string
     then match SMap.find (Drivers.vars_user readAnn)
                  (Drivers.rosterAfter driversConfig sampleAuth [createAnn]) with
          | Some driver => (Some StatusOK, [Drivers.DriverJSON driver])
          | None => (Some StatusNotFound, [])
          end
     else (Some StatusBadRequest, [])).
Proof.
  split; [exact createAnn_decoded|].
  apply (proj1 (proj2 (reads_of_roster driversConfig sampleAuth [createAnn]
                         readAnn createAnn_decoded))).
Defined.

Lemma no_drivers_iff_empty_roster_witness :
  let drivers := [("ann", mkDriver "ann" (F64.of_Z 10))] in
  let env := envOf (Ok drivers) (Ok sampleDirections) 14 in
  request_Decode env = Ok sampleJourney /\
  rosterIs env drivers /\
  decodedRoster drivers = true /\
  incl drivers
    (rosterSeenByRiders (Drivers.rosterAfter driversConfig sampleAuth [createAnn])) /\
  (reply (left_by (RiderRequest env) emptyWorld)
     = (Some StatusOK, [Text NoDriversMessage])
   <-> drivers = []).
Proof.
  intros drivers env.
  assert (Hincl : incl drivers
            (rosterSeenByRiders
               (Drivers.rosterAfter driversConfig sampleAuth [createAnn]))).
  { intros entry [<-|[]]. left. reflexivity. }
  split; [reflexivity|]. split; [repeat split|]. split; [reflexivity|].
  split; [exact Hincl|].
  apply (no_drivers_iff_empty_roster driversConfig sampleAuth [createAnn] env
           sampleJourney drivers eq_refl
           (conj eq_refl (conj eq_refl eq_refl)) eq_refl Hincl).
Defined.

Lemma Authenticate_first_user_witness :
  AuthService.header_x_api_key (AuthService.mkRequest "auth-key" "k1")
    = AuthService.apiKey authConfig /\
  AuthService.answer authConfig sampleFiles (AuthService.mkRequest "auth-key" "k1")
    = (Some StatusOK, "u1").
Proof.
  split; [reflexivity|].
  apply (proj1 (Authenticate_first_user authConfig sampleFiles
                  (AuthService.mkRequest "auth-key" "k1") sampleUsers
                  eq_refl eq_refl eq_refl)
           [] (AuthService.mkUser "u1" "k1")
           [AuthService.mkUser "u2" "k2"; AuthService.mkUser "u3" "k1"]
           eq_refl eq_refl).
  intros u [].
Defined.

